(** * DataScientist_Statistics: the notebooks' computations, checked against
      their description.

    The notebooks compute with Python numbers and NumPy/SciPy.  Finite
    floating-point values are modelled by the real numbers they approximate
    (rounding error is not modelled); the special values that NumPy produces
    on a division by zero (infinities and NaN) are modelled explicitly where a
    statement depends on them.  Python integers are [Z]; a Python exception is
    a [Raise] result.

    Where a statement about every input would otherwise depend on what the
    real numbers do not show, its hypotheses keep to the inputs on which
    float64 decides the same way: integers that float64 carries exactly
    ([float_exact]; an integer beyond the float range, about 1.8e308, makes
    Python's division raise [OverflowError], which is not modelled), and
    levels [alpha] that the subtraction [1 - alpha / 2] does not absorb. *)

From Stdlib Require Import Reals Lra Lia List ZArith QArith Qreals Factorial.
From Stdlib Require Import ClassicalEpsilon Sorted.
Import ListNotations.
Local Open Scope R_scope.

(** ** The standard normal distribution ([scipy.stats.norm]) *)

Module Normal.

(** The Gaussian kernel [exp (-t^2/2)]; the density is [gauss t / sqrt (2 PI)]. *)
Definition gauss (t : R) : R := exp (- (t * t) / 2).

Definition norm_pdf (t : R) : R := gauss t / sqrt (2 * PI).

Lemma gauss_derivable_pt_lim (t : R) :
  derivable_pt_lim gauss t (exp (- (t * t) / 2) * (- t)).
Proof.
  unfold gauss.
  change (fun t0 : R => exp (- (t0 * t0) / 2))
    with (comp exp (fun t0 : R => - (t0 * t0) / 2)).
  apply derivable_pt_lim_comp.
  - replace (- t)
      with (- (1 * id t + id t * 1) * fct_cte (/ 2) t + (- (id * id))%F t * 0)
      by (unfold id, opp_fct, mult_fct, fct_cte; field).
    change (fun t0 : R => - (t0 * t0) / 2)
      with ((- (id * id)) * fct_cte (/ 2))%F.
    apply derivable_pt_lim_mult.
    + apply derivable_pt_lim_opp.
      apply derivable_pt_lim_mult; apply derivable_pt_lim_id.
    + apply derivable_pt_lim_const.
  - apply derivable_pt_lim_exp.
Qed.

Lemma gauss_continuity : continuity gauss.
Proof.
  intro t. apply derivable_continuous_pt.
  exists (exp (- (t * t) / 2) * (- t)). apply gauss_derivable_pt_lim.
Qed.

Lemma gauss_integrable (a b : R) : Riemann_integrable gauss a b.
Proof.
  destruct (Rle_dec a b) as [Hab | Hab].
  - apply continuity_implies_RiemannInt; [exact Hab |].
    intros t _. apply gauss_continuity.
  - apply RiemannInt_P1, continuity_implies_RiemannInt; [lra |].
    intros t _. apply gauss_continuity.
Qed.

(** The signed area under the kernel between [0] and [x]. *)
Definition gauss_area (x : R) : R := RiemannInt (gauss_integrable 0 x).

(** [scipy.stats.norm.cdf]:
    [Phi x = 1/2 + (1 / sqrt (2 PI)) * integral of exp (-t^2/2) over [0, x]]. *)
Definition norm_cdf (x : R) : R := 1 / 2 + gauss_area x / sqrt (2 * PI).

(** [scipy.stats.norm.ppf]: the quantile function, the inverse of [norm_cdf];
    [norm_ppf q] is the point where the distribution function takes the value
    [q].  The distribution function is strictly increasing, so the point is
    unique; it is located below for the orders the notebooks use. *)
Definition norm_ppf (q : R) : R :=
  epsilon (inhabits 0) (fun z : R => norm_cdf z = q).

(** Partial sums of the series of [exp (- u)]. *)
Fixpoint exp_neg_partial (n : nat) (u : R) : R :=
  match n with
  | O => 1
  | S m => exp_neg_partial m u + (- u) ^ S m / INR (fact (S m))
  end.

(** Partial sums of the series of the area under the Gaussian kernel,
    [sum over k <= n of (-1)^k x^(2k+1) / (2^k k! (2k+1))]. *)
Fixpoint area_partial (n : nat) (x : R) : R :=
  match n with
  | O => x
  | S m => area_partial m x
           + (- 1) ^ S m * x ^ (2 * S m + 1)
             / (2 ^ S m * INR (fact (S m)) * INR (2 * S m + 1))
  end.

(** The same partial sums over the rationals (kept in lowest terms), where
    they can be evaluated. *)
Fixpoint Zfact (n : nat) : Z :=
  match n with
  | O => 1%Z
  | S m => (Z.of_nat (S m) * Zfact m)%Z
  end.

Fixpoint Qpow (q : Q) (n : nat) : Q :=
  match n with
  | O => 1%Q
  | S m => (q * Qpow q m)%Q
  end.

Fixpoint area_partial_Q (n : nat) (q : Q) : Q :=
  match n with
  | O => q
  | S m => Qred (area_partial_Q m q
                 + Qpow (- (1)) (S m) * Qpow q (2 * S m + 1)
                   / (Qpow 2 (S m) * inject_Z (Zfact (S m))
                      * inject_Z (Z.of_nat (2 * S m + 1))))%Q
  end.

(** Rational bounds of [sqrt (2 PI)]. *)
Definition sqrt_2PI_lo : R := 250662827462 / 100000000000.
Definition sqrt_2PI_hi : R := 250662827464 / 100000000000.

End Normal.

(** ** NumPy floating-point values and Python results *)

Module NumPy.

(** A [float64]: a finite value (modelled by a real number), an infinity or
    NaN.  Zero carries no sign: the divisors of the notebooks are square
    roots and counts, whose zero is [+0]. *)
Inductive npfloat : Type :=
  | Fin (r : R)
  | PInf
  | NInf
  | NaN.

Definition np_neg (x : npfloat) : npfloat :=
  match x with
  | Fin r => Fin (- r)
  | PInf => NInf
  | NInf => PInf
  | NaN => NaN
  end.

Definition np_add (x y : npfloat) : npfloat :=
  match x, y with
  | Fin a, Fin b => Fin (a + b)
  | NaN, _ | _, NaN => NaN
  | PInf, NInf | NInf, PInf => NaN
  | PInf, _ | _, PInf => PInf
  | NInf, _ | _, NInf => NInf
  end.

Definition np_sub (x y : npfloat) : npfloat := np_add x (np_neg y).

(** The infinity of the sign of [a], NaN when [a] is zero. *)
Definition signed_inf (a : R) : npfloat :=
  if Req_dec_T a 0 then NaN else if Rlt_dec 0 a then PInf else NInf.

Definition np_mul (x y : npfloat) : npfloat :=
  match x, y with
  | Fin a, Fin b => Fin (a * b)
  | NaN, _ | _, NaN => NaN
  | Fin a, PInf | PInf, Fin a => signed_inf a
  | Fin a, NInf | NInf, Fin a => signed_inf (- a)
  | PInf, PInf | NInf, NInf => PInf
  | PInf, NInf | NInf, PInf => NInf
  end.

(** NumPy division raises nothing: [x / 0] is an infinity, [0 / 0] is NaN. *)
Definition np_div (x y : npfloat) : npfloat :=
  match x, y with
  | NaN, _ | _, NaN => NaN
  | Fin a, Fin b => if Req_dec_T b 0 then signed_inf a else Fin (a / b)
  | Fin _, _ => Fin 0
  | PInf, Fin b => if Rlt_dec b 0 then NInf else PInf
  | NInf, Fin b => if Rlt_dec b 0 then PInf else NInf
  | _, _ => NaN
  end.

(** [np.sqrt]: NaN on a negative argument. *)
Definition np_sqrt (x : npfloat) : npfloat :=
  match x with
  | Fin r => if Rlt_dec r 0 then NaN else Fin (sqrt r)
  | PInf => PInf
  | NInf | NaN => NaN
  end.

(** [x ** 2]. *)
Definition np_square (x : npfloat) : npfloat := np_mul x x.

Definition np_abs (x : npfloat) : npfloat :=
  match x with
  | Fin r => Fin (Rabs r)
  | PInf | NInf => PInf
  | NaN => NaN
  end.

(** [x < y]: every comparison with NaN is false. *)
Definition np_ltb (x y : npfloat) : bool :=
  match x, y with
  | NaN, _ | _, NaN => false
  | Fin a, Fin b => if Rlt_dec a b then true else false
  | _, NInf => false
  | NInf, _ => true
  | PInf, _ => false
  | Fin _, PInf => true
  end.

(** [stats.norm.cdf] and [stats.norm.ppf] on [float64] arguments. *)
Definition np_norm_cdf (x : npfloat) : npfloat :=
  match x with
  | Fin r => Fin (Normal.norm_cdf r)
  | PInf => Fin 1
  | NInf => Fin 0
  | NaN => NaN
  end.

Definition np_norm_ppf (q : R) : npfloat :=
  if Req_dec_T q 0 then NInf
  else if Req_dec_T q 1 then PInf
  else if Rlt_dec 0 q then (if Rlt_dec q 1 then Fin (Normal.norm_ppf q) else NaN)
  else NaN.

(** Python exceptions and results. *)
Inductive pyexn : Type :=
  | ZeroDivisionError
  | ValueError.

Inductive pyresult (A : Type) : Type :=
  | Return (a : A)
  | Raise (e : pyexn).

Arguments Return {A} a.
Arguments Raise {A} e.

Definition bind {A B : Type} (m : pyresult A) (k : A -> pyresult B)
  : pyresult B :=
  match m with
  | Return a => k a
  | Raise e => Raise e
  end.

(** Python's [/] on numbers (an [int] operand is converted first): it raises
    on a zero divisor.  The operands are numbers of the float range: an
    integer beyond it (about 1.8e308) raises [OverflowError] in Python, a
    case this function does not have. *)
Definition py_truediv (a b : R) : pyresult R :=
  if Req_dec_T b 0 then Raise ZeroDivisionError else Return (a / b).

(** The integers that float64 carries exactly, [|k| < 2^53]: on them the
    conversion of an [int] operand raises nothing and loses nothing, and a
    quotient [c / n] is above 1 (below 0) as a float as soon as it is as a
    fraction. *)
Definition float_exact (k : Z) : bool := (Z.abs k <? 2 ^ 53)%Z.

(** Array reductions over finite entries. *)
Definition total (xs : list R) : R := fold_right Rplus 0 xs.

(** [len(xs)] as a number. *)
Definition len (xs : list R) : R := INR (length xs).

(** [np.mean]: NaN ([0 / 0]) on an empty array. *)
Definition np_mean (xs : list R) : npfloat :=
  np_div (Fin (total xs)) (Fin (len xs)).

(** The arithmetic mean of a non-empty array, as a real number. *)
Definition mean (xs : list R) : R := total xs / len xs.

(** The deviations [x - mean] of an array (none when the array is empty). *)
Definition centered (xs : list R) : list R :=
  map (fun x => x - mean xs) xs.

(** Sum of the products of paired entries (pairs beyond the shorter array
    do not occur: the callers check the lengths). *)
Fixpoint dot (xs ys : list R) : R :=
  match xs, ys with
  | x :: xs', y :: ys' => x * y + dot xs' ys'
  | _, _ => 0
  end.

(** [np.var(xs, ddof=ddof)]: the sum of squared deviations divided by
    [max (n - ddof) 0]. *)
Definition np_var (xs : list R) (ddof : nat) : npfloat :=
  np_div (Fin (dot (centered xs) (centered xs)))
         (Fin (INR (length xs - ddof))).

(** [np.cov(xs, ys)[0, 1]] (default [ddof = 1]): the arrays must have the
    same length; the cross products are scaled by [1 / max (n - 1) 0]. *)
Definition np_cov01 (xs ys : list R) : pyresult npfloat :=
  if Nat.eqb (length xs) (length ys)
  then Return (np_mul (Fin (dot (centered xs) (centered ys)))
                      (np_div (Fin 1) (Fin (INR (length xs - 1)))))
  else Raise ValueError.

(** [np.log]: minus infinity at zero, NaN on a negative argument. *)
Definition np_log (x : R) : npfloat :=
  if Rlt_dec 0 x then Fin (ln x)
  else if Req_dec_T x 0 then NInf else NaN.

(** Reductions over arrays whose entries may be infinite or NaN. *)
Definition np_sum (xs : list npfloat) : npfloat :=
  fold_right np_add (Fin 0) xs.

(** [np.var(xs, ddof=ddof)] on such an array: the mean, the deviations,
    their squares, and the division by [max (n - ddof) 0]. *)
Definition np_var_f (xs : list npfloat) (ddof : nat) : npfloat :=
  let arrmean := np_div (np_sum xs) (Fin (INR (length xs))) in
  let x := map (fun v => np_sub v arrmean) xs in
  np_div (np_sum (map np_square x)) (Fin (INR (length xs - ddof))).

(** Element-wise operation on two one-dimensional arrays under NumPy's
    broadcasting: equal lengths pair up, an array of one entry is repeated,
    and any other pair of lengths raises [ValueError]. *)
Fixpoint zip_with {A B C : Type} (f : A -> B -> C)
  (xs : list A) (ys : list B) : list C :=
  match xs, ys with
  | x :: xs', y :: ys' => f x y :: zip_with f xs' ys'
  | _, _ => []
  end.

Definition broadcast2 {A B C : Type} (f : A -> B -> C)
  (xs : list A) (ys : list B) : pyresult (list C) :=
  if Nat.eqb (length xs) (length ys) then Return (zip_with f xs ys)
  else match xs, ys with
       | [x], _ => Return (map (f x) ys)
       | _, [y] => Return (map (fun x => f x y) xs)
       | _, _ => Raise ValueError
       end.

(** [np.arange(start, stop, step)] on integers, for a positive step: the
    integers [start + i * step] below [stop]. *)
Definition arange (start stop : Z) (step : positive) : list Z :=
  map (fun i => (start + Z.of_nat i * Zpos step)%Z)
      (seq 0 (Z.to_nat ((stop - start + Zpos step - 1) / Zpos step))).

End NumPy.

Import NumPy.

Notation "x <- m ;; k" := (bind m (fun x => k))
  (at level 61, m at next level, right associativity).

(** ** Hypothesis Testing, part 2: the A/B test, the minimum detectable
       effect and CUPED *)

Module HypothesisTesting.

Inductive decision : Type :=
  | REJECT_NULL
  | FAIL_TO_REJECT.

(** [if p_value < alpha: ... Reject H0 ... else: ... Fail to reject H0]. *)
Definition conclude (p_value : npfloat) (alpha : R) : decision :=
  if np_ltb p_value (Fin alpha) then REJECT_NULL else FAIL_TO_REJECT.

Record ab_test : Type := {
  p_A : R;
  p_B : R;
  se_A : npfloat;
  se_B : npfloat;
  se_diff : npfloat;
  z_score : npfloat;
  p_value : npfloat;
  conclusion : decision
}.

(** The A/B-test cell, as a function of the counts it starts from.  The
    rates and the p-value are the exact numbers: in float64 a rate [c / n]
    with [c], [n] beyond [float_exact] can round to 1, and
    [1 - stats.norm.cdf(|z|)] is 0 from about [|z| = 8.3] on, a p-value that
    is below every positive [alpha]. *)
Definition twoProportionZTest (conv_A n_A conv_B n_B : Z) (alpha : R)
  : pyresult ab_test :=
  p_A <- py_truediv (IZR conv_A) (IZR n_A) ;;
  p_B <- py_truediv (IZR conv_B) (IZR n_B) ;;
  var_A <- py_truediv (p_A * (1 - p_A)) (IZR n_A) ;;
  let se_A := np_sqrt (Fin var_A) in
  var_B <- py_truediv (p_B * (1 - p_B)) (IZR n_B) ;;
  let se_B := np_sqrt (Fin var_B) in
  let se_diff := np_sqrt (np_add (np_square se_A) (np_square se_B)) in
  let z_score := np_div (Fin (p_B - p_A)) se_diff in
  let p_value :=
    np_mul (Fin 2) (np_sub (Fin 1) (np_norm_cdf (np_abs z_score))) in
  Return {| p_A := p_A; p_B := p_B; se_A := se_A; se_B := se_B;
            se_diff := se_diff; z_score := z_score; p_value := p_value;
            conclusion := conclude p_value alpha |}.

(** The minimum-detectable-effect cell, as a function of [n], [alpha] and
    [power]; the baseline proportion [0.5] is written in the cell.  The
    next cell evaluates the same expression at the doubled sample size.
    The order [1 - alpha / 2] is the exact number: in float64 it is 1 for
    [|alpha|] below [2^-52] (the spacing of floats at 1), where the code
    gets an infinite quantile. *)
Definition minimumDetectableEffect (n : Z) (alpha power : R)
  : pyresult npfloat :=
  let z_alpha := np_norm_ppf (1 - alpha / 2) in
  let z_power := np_norm_ppf power in
  var <- py_truediv (5 / 10 * (1 - 5 / 10)) (IZR n) ;;
  let se := np_sqrt (Fin var) in
  Return (np_mul (np_mul (np_add z_alpha z_power) se) (np_sqrt (Fin 2))).

(** Element-wise combination of two arrays of the same length. *)
Fixpoint map2 {A B C : Type} (f : A -> B -> C) (xs : list A) (ys : list B)
  : list C :=
  match xs, ys with
  | x :: xs', y :: ys' => f x y :: map2 f xs' ys'
  | _, _ => []
  end.

(** [theta = np.cov(X, Y)[0, 1] / np.var(X)].  Mean and deviations are the
    exact numbers: the float mean of equal entries is that entry when their
    sum is carried exactly (integers with [n |k| < 2^53]), and can differ
    from it otherwise, leaving a variance of rounding errors rather
    than 0. *)
Definition cuped_theta (X Y : list R) : pyresult npfloat :=
  c <- np_cov01 X Y ;;
  Return (np_div c (np_var X 0)).

(** The CUPED cell: [Y_adj = Y - theta * (X - np.mean(X))], for the outcome
    [Y] and the covariate [X]. *)
Definition cupedAdjust (Y X : list R) : pyresult (list npfloat) :=
  theta <- cuped_theta X Y ;;
  Return (map2 (fun y x =>
                  np_sub (Fin y) (np_mul theta (np_sub (Fin x) (np_mean X))))
               Y X).

(** The CUPAC cell: [Y_adj_cupac = Y_adj - theta * (covariate -
    np.mean(covariate))], with the adjusted outcome and the coefficient of
    the CUPED cell and a further covariate. *)
Definition cupacAdjust (Y_adj : list npfloat) (covariate : list R)
  (theta : npfloat) : pyresult (list npfloat) :=
  broadcast2 np_sub Y_adj
    (map (fun c => np_mul theta (np_sub (Fin c) (np_mean covariate)))
         covariate).

(** The delta-method cell: [np.var(np.log(original_metric)) /
    len(original_metric)]. *)
Definition deltaMethodVariance (original_metric : list R) : npfloat :=
  let transformed_metric := map np_log original_metric in
  np_div (np_var_f transformed_metric 0) (Fin (len original_metric)).

End HypothesisTesting.

(** ** Confidence intervals *)

Module ConfidenceIntervals.

(** The known-variance cell, as a function of the sample and [sigma]; the
    quantile [0.975] is written in the cell. *)
Definition meanIntervalKnownVariance (data : list R) (sigma : R)
  : npfloat * npfloat :=
  let mean_sample := np_mean data in
  let n := len data in
  let z_score := np_norm_ppf (975 / 1000) in
  let margin_of_error :=
    np_mul z_score (np_div (Fin sigma) (np_sqrt (Fin n))) in
  (np_sub mean_sample margin_of_error, np_add mean_sample margin_of_error).

Section TwoMeans.

(** [stats.t.ppf q df]: the quantile function of Student's t distribution,
    provided by the numerical library. *)
Variable t_ppf : R -> R -> R.

(** The two-means cell, as a function of the two samples; the sample size
    [100], the quantile [0.975] and the degrees of freedom [198] are written
    in the cell. *)
Definition twoMeanDifferenceInterval (sample1 sample2 : list R)
  : npfloat * npfloat :=
  let mean_diff := np_sub (np_mean sample1) (np_mean sample2) in
  let std_error :=
    np_sqrt (np_add (np_div (np_var sample1 1) (Fin 100))
                    (np_div (np_var sample2 1) (Fin 100))) in
  let t_critical := Fin (t_ppf (975 / 1000) 198) in
  let margin_of_error_2samples := np_mul t_critical std_error in
  (np_sub mean_diff margin_of_error_2samples,
   np_add mean_diff margin_of_error_2samples).

End TwoMeans.

(** The margin-of-error cell: [stats.norm.ppf(0.975) * (10 / np.sqrt(n))]
    for each [n] of [sample_sizes]; the standard deviation [10] is written
    in the cell. *)
Definition marginOfError (n : Z) : npfloat :=
  np_mul (np_norm_ppf (975 / 1000))
         (np_div (Fin 10) (np_sqrt (Fin (IZR n)))).

Definition moe_values (sample_sizes : list Z) : list npfloat :=
  map marginOfError sample_sizes.

(** [sample_sizes = np.arange(10, 300, 10)]. *)
Definition sample_sizes : list Z := arange 10 300 10.

Section UnknownVariance.

(** [stats.t.ppf q df]; SciPy returns NaN unless [df] is positive. *)
Variable t_ppf : R -> R -> R.

Definition np_t_ppf (q df : R) : npfloat :=
  if Rlt_dec 0 df then Fin (t_ppf q df) else NaN.

(** The unknown-variance cell, as a function of the sample (the sample of
    the known-variance cell); the quantile [0.975] is written in the cell. *)
Definition meanIntervalUnknownVariance (data : list R)
  : npfloat * npfloat :=
  let mean_sample := np_mean data in
  let n := len data in
  let s := np_sqrt (np_var data 1) in
  let t_score := np_t_ppf (975 / 1000) (n - 1) in
  let margin_of_error_t := np_mul t_score (np_div s (np_sqrt (Fin n))) in
  (np_sub mean_sample margin_of_error_t,
   np_add mean_sample margin_of_error_t).

End UnknownVariance.

End ConfidenceIntervals.

(** ** The formulas of the description *)

Module Reference.

Import Normal HypothesisTesting.

(** Sample statistics as real numbers (for samples with enough entries). *)
Definition cov_sample (xs ys : list R) : R :=
  dot (centered xs) (centered ys) / (len xs - 1).

Definition cov_pop (xs ys : list R) : R :=
  dot (centered xs) (centered ys) / len xs.

Definition var_sample (xs : list R) : R :=
  dot (centered xs) (centered xs) / (len xs - 1).

Definition var_pop (xs : list R) : R :=
  dot (centered xs) (centered xs) / len xs.

(** [Y - theta (X - mean X)] over the reals, for a finite coefficient. *)
Definition adjusted (theta : R) (Y X : list R) : list R :=
  map2 (fun y x => y - theta * (x - mean X)) Y X.

(** The two-tailed critical value at a confidence level: the quantile of
    order [1 - (1 - confidenceLevel) / 2]. *)
Definition two_tailed_order (confidenceLevel : R) : R :=
  1 - (1 - confidenceLevel) / 2.


(** [(meanA - meanB) +- t * sqrt(varA/nA + varB/nB)] with [nA + nB - 2]
    degrees of freedom, as the description states it, for any samples and
    any confidence level. *)
Definition spec_twoMeanDifferenceInterval
  (t_ppf : R -> R -> R) (sampleA sampleB : list R) (confidenceLevel : R)
  : npfloat * npfloat :=
  let t := t_ppf (two_tailed_order confidenceLevel)
                 (len sampleA + len sampleB - 2) in
  let half := t * sqrt (var_sample sampleA / len sampleA
                        + var_sample sampleB / len sampleB) in
  (Fin (mean sampleA - mean sampleB - half),
   Fin (mean sampleA - mean sampleB + half)).

(** The Welch-Satterthwaite degrees of freedom. *)
Definition welch_satterthwaite_df (sampleA sampleB : list R) : R :=
  let a := var_sample sampleA / len sampleA in
  let b := var_sample sampleB / len sampleB in
  (a + b) ^ 2 / (a ^ 2 / (len sampleA - 1) + b ^ 2 / (len sampleB - 1)).


(** A sample of zeros followed by ones, half and half. *)
Definition half_zeros_half_ones (k : nat) : list R :=
  repeat 0 k ++ repeat 1 k.

(** Properties of Student's quantile function that separate quantiles of
    different orders and degrees of freedom: above the median it is
    positive, increases with the order and does not increase with the
    degrees of freedom. *)
Definition student_like (t_ppf : R -> R -> R) : Prop :=
  (forall q df, 1 / 2 < q < 1 -> 0 < df -> 0 < t_ppf q df)
  /\ (forall q1 q2 df, 1 / 2 < q1 -> q1 < q2 -> q2 < 1 -> 0 < df ->
        t_ppf q1 df < t_ppf q2 df)
  /\ (forall q df1 df2, 1 / 2 < q < 1 -> 0 < df1 -> df1 <= df2 ->
        t_ppf q df2 <= t_ppf q df1).

(** The standard error of the difference, the statistic and the p-value in
    the scenario of the A/B-test cell (500 and 600 conversions out of 10000). *)
Definition scenario_se_diff : R :=
  sqrt (sqrt (500 / 10000 * (1 - 500 / 10000) / 10000)
        * sqrt (500 / 10000 * (1 - 500 / 10000) / 10000)
        + sqrt (600 / 10000 * (1 - 600 / 10000) / 10000)
          * sqrt (600 / 10000 * (1 - 600 / 10000) / 10000)).

Definition scenario_z : R := (600 / 10000 - 500 / 10000) / scenario_se_diff.

Definition scenario_p : R := 2 * (1 + - norm_cdf (Rabs scenario_z)).

(** The errors of the description. *)
Inductive spec_error : Type :=
  | InsufficientDataError
  | DistributionError
  | DimensionMismatchError
  | DivisionByZeroError
  | DegenerateCovariateError.

Inductive outcome (A : Type) : Type :=
  | Ok (a : A)
  | Fails (e : spec_error).

Arguments Ok {A} a.
Arguments Fails {A} e.

(** Modelled from the spec: [chiSquareTest], whose code (the first
    hypothesis-testing notebook) is not among the sources; the README gives
    the statistic [sum (O - E)^2 / E].  The statistic is accumulated over the
    pairs and a zero expected count fails where it is met. *)
Fixpoint chi_square_from (acc : R) (observed expected : list R)
  : outcome R :=
  match observed, expected with
  | o :: observed', e :: expected' =>
      if Req_dec_T e 0 then Fails DivisionByZeroError
      else chi_square_from (acc + (o - e) ^ 2 / e) observed' expected'
  | _, _ => Ok acc
  end.

(** Modelled from the spec: [chiSquareTest observed expected alpha] returns
    the statistic; [alpha] takes no part in it. *)
Definition chiSquareTest (observed expected : list R) (alpha : R)
  : outcome R :=
  if Nat.eqb (length observed) (length expected)
  then chi_square_from 0 observed expected
  else Fails DimensionMismatchError.

(** The margin of error of the margin-of-error cell over the reals, for a
    positive sample size. *)
Definition margin (n : Z) : R :=
  norm_ppf (975 / 1000) * (10 / sqrt (IZR n)).

End Reference.

(** ** Facts about the normal distribution function *)

Module NormalFacts.

Import Normal.

Lemma gauss_pos (t : R) : 0 < gauss t.
Proof. unfold gauss. apply exp_pos. Qed.

Lemma gauss_area_chasles (x y : R) :
  gauss_area y - gauss_area x = RiemannInt (gauss_integrable x y).
Proof.
  unfold gauss_area.
  rewrite <- (RiemannInt_P26 (gauss_integrable 0 x) (gauss_integrable x y)
                             (gauss_integrable 0 y)).
  ring.
Qed.

Lemma gauss_area_0 : gauss_area 0 = 0.
Proof. unfold gauss_area. apply RiemannInt_P9. Qed.

Lemma gauss_area_derivable_pt_lim (x : R) :
  derivable_pt_lim gauss_area x (gauss x).
Proof.
  assert (h : x - 1 <= x + 1) by lra.
  assert (C0 : forall t : R, x - 1 <= t <= x + 1 -> continuity_pt gauss t)
    by (intros t _; apply gauss_continuity).
  assert (Hx : x - 1 <= x <= x + 1) by lra.
  pose proof (RiemannInt_P28 h C0 Hx) as HP.
  assert (Hprim : forall y, x - 1 <= y <= x + 1 ->
            primitive h (FTC_P1 h C0) y = gauss_area y - gauss_area (x - 1)).
  { intros y [Hy1 Hy2]. unfold primitive.
    destruct (Rle_dec (x - 1) y) as [r | n]; [| contradiction].
    destruct (Rle_dec y (x + 1)) as [r0 | n]; [| contradiction].
    rewrite gauss_area_chasles. apply RiemannInt_P5. }
  intros eps Heps. destruct (HP eps Heps) as [delta Hdelta].
  assert (Hmin : 0 < Rmin delta 1).
  { apply Rmin_pos; [apply cond_pos | lra]. }
  exists (mkposreal _ Hmin). intros k Hk0 Hk. simpl in Hk.
  assert (Hk1 : Rabs k < 1) by (eapply Rlt_le_trans; [exact Hk | apply Rmin_r]).
  assert (Hkd : Rabs k < delta)
    by (eapply Rlt_le_trans; [exact Hk | apply Rmin_l]).
  specialize (Hdelta k Hk0 Hkd).
  apply Rabs_def2 in Hk1.
  rewrite !Hprim in Hdelta by lra.
  replace (gauss_area (x + k) - gauss_area x)
    with (gauss_area (x + k) - gauss_area (x - 1)
          - (gauss_area x - gauss_area (x - 1))) by ring.
  exact Hdelta.
Qed.

Lemma derivable_pt_lim_monomial (c : R) (m : nat) (x : R) :
  derivable_pt_lim (fun y => c * y ^ S m) x (c * (INR (S m) * x ^ m)).
Proof.
  change (fun y => c * y ^ S m) with (mult_real_fct c (fun y => y ^ S m)).
  apply derivable_pt_lim_scal.
  replace m with (pred (S m)) at 2 by reflexivity.
  apply derivable_pt_lim_pow.
Qed.

Lemma exp_neg_partial_0 (n : nat) : exp_neg_partial n 0 = 1.
Proof.
  induction n as [| n IH]; [reflexivity |].
  cbn [exp_neg_partial]. rewrite IH, Ropp_0, pow_i by lia.
  unfold Rdiv. ring.
Qed.

Lemma derivable_pt_lim_eq (f : R -> R) (x l l' : R) :
  l = l' -> derivable_pt_lim f x l -> derivable_pt_lim f x l'.
Proof. intros <-. exact (fun H => H). Qed.

Lemma exp_neg_partial_step (n : nat) (u : R) :
  exp_neg_partial (S n) u
  = exp_neg_partial n u + ((- 1) ^ S n / INR (fact (S n))) * u ^ S n.
Proof.
  cbn [exp_neg_partial]. replace (- u) with (- 1 * u) by ring.
  rewrite Rpow_mult_distr. unfold Rdiv. ring.
Qed.

Lemma exp_neg_partial_derivable (n : nat) (u : R) :
  derivable_pt_lim (exp_neg_partial (S n)) u (- exp_neg_partial n u).
Proof.
  revert u. induction n as [| n IH]; intro u.
  - apply (derivable_pt_lim_ext
             (fun v => 1 + ((- 1) ^ 1 / INR (fact 1)) * v ^ 1)%R).
    { intro v. rewrite exp_neg_partial_step. reflexivity. }
    apply (derivable_pt_lim_eq _ _
             (0 + ((- 1) ^ 1 / INR (fact 1)) * (INR 1 * u ^ 0))).
    { simpl. field. }
    apply (derivable_pt_lim_plus (fun _ => 1)
             (fun v => ((- 1) ^ 1 / INR (fact 1)) * v ^ 1)).
    + apply derivable_pt_lim_const.
    + apply derivable_pt_lim_monomial.
  - apply (derivable_pt_lim_ext
             (fun v => exp_neg_partial (S n) v
                       + ((- 1) ^ S (S n) / INR (fact (S (S n))))
                         * v ^ S (S n))).
    { intro v. symmetry. apply exp_neg_partial_step. }
    apply (derivable_pt_lim_eq _ _
             (- exp_neg_partial n u
              + ((- 1) ^ S (S n) / INR (fact (S (S n))))
                * (INR (S (S n)) * u ^ S n))).
    { rewrite (exp_neg_partial_step n).
      replace (fact (S (S n))) with (S (S n) * fact (S n))%nat by reflexivity.
      rewrite mult_INR.
      assert (H1 : INR (S (S n)) <> 0) by (apply not_0_INR; lia).
      assert (H2 : INR (fact (S n)) <> 0) by apply INR_fact_neq_0.
      rewrite <- (tech_pow_Rmult (- 1) (S n)). field. split; assumption. }
    apply (derivable_pt_lim_plus (exp_neg_partial (S n))
             (fun v => (- 1) ^ S (S n) / INR (fact (S (S n))) * v ^ S (S n))).
    + apply IH.
    + apply derivable_pt_lim_monomial.
Qed.

Lemma exp_neg_derivable_pt_lim (u : R) :
  derivable_pt_lim (fun v => exp (- v)) u (- exp (- u)).
Proof.
  apply (derivable_pt_lim_eq _ _ (exp (- u) * - 1)); [ring |].
  apply (derivable_pt_lim_comp (fun v => - v) exp).
  - apply (derivable_pt_lim_opp id). apply derivable_pt_lim_id.
  - apply derivable_pt_lim_exp.
Qed.

(** The partial sums of the alternating series enclose [exp (- u)]. *)
Lemma exp_neg_enclosure (n : nat) (u : R) :
  0 <= u -> 0 <= (- 1) ^ S n * (exp (- u) - exp_neg_partial n u).
Proof.
  revert u. induction n as [| n IH]; intros u Hu.
  - cbn [exp_neg_partial]. simpl pow.
    assert (exp (- u) <= 1).
    { rewrite <- exp_0. destruct Hu as [Hu | <-].
      - left. apply exp_increasing. lra.
      - rewrite Ropp_0. right. reflexivity. }
    lra.
  - destruct Hu as [Hu | <-].
    2: { rewrite exp_neg_partial_0, Ropp_0, exp_0. right. ring. }
    destruct (MVT_cor2
                (fun v => (- 1) ^ S (S n) * (exp (- v) - exp_neg_partial (S n) v))
                (fun v => (- 1) ^ S n * (exp (- v) - exp_neg_partial n v))
                0 u Hu) as [c [Hc Hc01]].
    { intros c _.
      apply (derivable_pt_lim_eq _ _
               ((- 1) ^ S (S n) * (- exp (- c) - - exp_neg_partial n c))).
      { rewrite <- (tech_pow_Rmult (- 1) (S n)). ring. }
      apply (derivable_pt_lim_scal
               (fun v => exp (- v) - exp_neg_partial (S n) v)).
      apply (derivable_pt_lim_minus (fun v => exp (- v))
               (exp_neg_partial (S n))).
      - apply exp_neg_derivable_pt_lim.
      - apply exp_neg_partial_derivable. }
    rewrite exp_neg_partial_0, Ropp_0, exp_0 in Hc.
    assert (0 <= (- 1) ^ S n * (exp (- c) - exp_neg_partial n c))
      by (apply IH; lra).
    assert (0 <= (- 1) ^ S n * (exp (- c) - exp_neg_partial n c) * (u - 0))
      by (apply Rmult_le_pos; lra).
    lra.
Qed.

Lemma area_partial_step (n : nat) (x : R) :
  area_partial (S n) x
  = area_partial n x
    + ((- 1) ^ S n / (2 ^ S n * INR (fact (S n)) * INR (2 * S n + 1)))
      * x ^ S (2 * S n).
Proof.
  cbn [area_partial]. replace (2 * S n + 1)%nat with (S (2 * S n)) by lia.
  unfold Rdiv. ring.
Qed.

Lemma area_partial_derivable (n : nat) (x : R) :
  derivable_pt_lim (area_partial n) x (exp_neg_partial n (x * x / 2)).
Proof.
  revert x. induction n as [| n IH]; intro x.
  - apply (derivable_pt_lim_ext id); [reflexivity |].
    apply derivable_pt_lim_id.
  - apply (derivable_pt_lim_ext
             (fun y => area_partial n y
                + ((- 1) ^ S n / (2 ^ S n * INR (fact (S n)) * INR (2 * S n + 1)))
                  * y ^ S (2 * S n))).
    { intro y. symmetry. apply area_partial_step. }
    apply (derivable_pt_lim_eq _ _
             (exp_neg_partial n (x * x / 2)
              + ((- 1) ^ S n / (2 ^ S n * INR (fact (S n)) * INR (2 * S n + 1)))
                * (INR (S (2 * S n)) * x ^ (2 * S n)))).
    { rewrite exp_neg_partial_step.
      replace (x * x / 2) with (x ^ 2 * / 2) by (simpl; field).
      rewrite Rpow_mult_distr, <- pow_mult, pow_inv.
      replace (2 * S n + 1)%nat with (S (2 * S n)) by lia.
      assert (H1 : INR (S (2 * S n)) <> 0) by (apply not_0_INR; lia).
      assert (H2 : INR (fact (S n)) <> 0) by apply INR_fact_neq_0.
      assert (H3 : 2 ^ S n <> 0) by (apply pow_nonzero; lra).
      field. repeat split; assumption. }
    apply (derivable_pt_lim_plus (area_partial n)
             (fun y => (- 1) ^ S n
                       / (2 ^ S n * INR (fact (S n)) * INR (2 * S n + 1))
                       * y ^ S (2 * S n))).
    + apply IH.
    + apply derivable_pt_lim_monomial.
Qed.

Lemma area_partial_0 (n : nat) : area_partial n 0 = 0.
Proof.
  induction n as [| n IH]; [reflexivity |].
  rewrite area_partial_step, IH, pow_i by lia. ring.
Qed.

(** The partial sums of the integrated series enclose the area. *)
Lemma gauss_area_enclosure (n : nat) (x : R) :
  0 <= x -> 0 <= (- 1) ^ S n * (gauss_area x - area_partial n x).
Proof.
  intros [Hx | <-].
  2: { rewrite gauss_area_0, area_partial_0. right. ring. }
  destruct (MVT_cor2
              (fun y => (- 1) ^ S n * (gauss_area y - area_partial n y))
              (fun y => (- 1) ^ S n * (gauss y - exp_neg_partial n (y * y / 2)))
              0 x Hx) as [c [Hc Hc0x]].
  { intros c _.
    apply (derivable_pt_lim_scal (fun y => gauss_area y - area_partial n y)).
    apply (derivable_pt_lim_minus gauss_area (area_partial n)).
    - apply gauss_area_derivable_pt_lim.
    - apply area_partial_derivable. }
  rewrite gauss_area_0, area_partial_0 in Hc.
  assert (Hg : gauss c = exp (- (c * c / 2))).
  { unfold gauss. f_equal. field. }
  assert (0 <= (- 1) ^ S n * (gauss c - exp_neg_partial n (c * c / 2))).
  { rewrite Hg. apply exp_neg_enclosure. nra. }
  assert (0 <= (- 1) ^ S n * (gauss c - exp_neg_partial n (c * c / 2)) * (x - 0))
    by (apply Rmult_le_pos; lra).
  lra.
Qed.

Lemma gauss_area_le_even (m : nat) (x : R) :
  0 <= x -> gauss_area x <= area_partial (2 * m) x.
Proof.
  intro Hx. pose proof (gauss_area_enclosure (2 * m) x Hx) as H.
  rewrite pow_1_odd in H. lra.
Qed.

Lemma gauss_area_ge_odd (m : nat) (x : R) :
  0 <= x -> area_partial (S (2 * m)) x <= gauss_area x.
Proof.
  intro Hx. pose proof (gauss_area_enclosure (S (2 * m)) x Hx) as H.
  rewrite <- tech_pow_Rmult, pow_1_odd in H. lra.
Qed.

Lemma gauss_area_increasing (x y : R) :
  x < y -> gauss_area x < gauss_area y.
Proof.
  intro Hxy.
  destruct (MVT_cor2 gauss_area gauss x y Hxy) as [c [Hc _]].
  { intros c _. apply gauss_area_derivable_pt_lim. }
  pose proof (gauss_pos c). nra.
Qed.



Lemma sqrt_2PI_pos : 0 < sqrt (2 * PI).
Proof. apply sqrt_lt_R0. pose proof PI_RGT_0. lra. Qed.

Lemma norm_cdf_increasing (x y : R) : x < y -> norm_cdf x < norm_cdf y.
Proof.
  intro Hxy. unfold norm_cdf.
  pose proof (gauss_area_increasing x y Hxy).
  pose proof sqrt_2PI_pos.
  apply Rplus_lt_compat_l. unfold Rdiv.
  apply Rmult_lt_compat_r; [apply Rinv_0_lt_compat |]; assumption.
Qed.

Lemma norm_cdf_injective (x y : R) : norm_cdf x = norm_cdf y -> x = y.
Proof.
  intro E. destruct (Rtotal_order x y) as [H | [H | H]]; [| exact H |].
  - apply norm_cdf_increasing in H. lra.
  - apply norm_cdf_increasing in H. lra.
Qed.


Lemma norm_cdf_0 : norm_cdf 0 = 1 / 2.
Proof. unfold norm_cdf. rewrite gauss_area_0. field. pose proof sqrt_2PI_pos. lra. Qed.

(** The distribution function is a primitive of the density. *)
Lemma norm_cdf_derivable_pt_lim (x : R) :
  derivable_pt_lim norm_cdf x (norm_pdf x).
Proof.
  unfold norm_cdf, norm_pdf.
  apply (derivable_pt_lim_eq _ _ (0 + / sqrt (2 * PI) * gauss x));
    [unfold Rdiv; ring |].
  apply (derivable_pt_lim_plus (fun _ => 1 / 2)
           (fun y => gauss_area y / sqrt (2 * PI))).
  - apply derivable_pt_lim_const.
  - apply (derivable_pt_lim_ext (mult_real_fct (/ sqrt (2 * PI)) gauss_area)).
    { intro z. unfold mult_real_fct, Rdiv. ring. }
    apply derivable_pt_lim_scal. apply gauss_area_derivable_pt_lim.
Qed.

Lemma norm_cdf_continuity : continuity norm_cdf.
Proof.
  intro x. apply derivable_continuous_pt.
  exists (norm_pdf x). apply norm_cdf_derivable_pt_lim.
Qed.

Lemma IZR_Zfact (n : nat) : IZR (Zfact n) = INR (fact n).
Proof.
  induction n as [| n IH]; [reflexivity |].
  change (Zfact (S n)) with (Z.of_nat (S n) * Zfact n)%Z.
  change (fact (S n)) with (S n * fact n)%nat.
  rewrite mult_IZR, mult_INR, IH, <- INR_IZR_INZ. reflexivity.
Qed.

Lemma Q2R_inject_Z (z : Z) : Q2R (inject_Z z) = IZR z.
Proof. unfold Q2R, inject_Z. simpl. field. Qed.

Lemma Q2R_Qpow (q : Q) (n : nat) : Q2R (Qpow q n) = Q2R q ^ n.
Proof.
  induction n as [| n IH].
  - unfold Q2R. simpl. field.
  - cbn [Qpow pow]. rewrite Q2R_mult, IH. reflexivity.
Qed.

Lemma Q2R_area_partial (n : nat) (q : Q) :
  Q2R (area_partial_Q n q) = area_partial n (Q2R q).
Proof.
  induction n as [| n IH]; [reflexivity |].
  cbn [area_partial_Q area_partial].
  assert (Hden : (2 ^ S n * INR (fact (S n)) * INR (2 * S n + 1))%R <> 0).
  { apply Rmult_integral_contrapositive_currified;
      [apply Rmult_integral_contrapositive_currified |].
    - apply pow_nonzero. lra.
    - apply INR_fact_neq_0.
    - apply not_0_INR. lia. }
  assert (HdenQ : Q2R (Qpow 2 (S n) * inject_Z (Zfact (S n))
                       * inject_Z (Z.of_nat (2 * S n + 1)))
                  = (2 ^ S n * INR (fact (S n)) * INR (2 * S n + 1))%R).
  { rewrite !Q2R_mult, Q2R_Qpow, !Q2R_inject_Z, IZR_Zfact, <- INR_IZR_INZ.
    f_equal. f_equal. f_equal. unfold Q2R. simpl. field. }
  rewrite (Qeq_eqR _ _ (Qred_correct _)).
  rewrite Q2R_plus, Q2R_div, Q2R_mult, !Q2R_Qpow, HdenQ, IH.
  - f_equal. f_equal. f_equal. f_equal. unfold Q2R. simpl. field.
  - intro E. apply Qeq_eqR in E. rewrite HdenQ in E.
    apply Hden. rewrite E. unfold Q2R. simpl. field.
Qed.

Lemma gauss_area_upper (m : nat) (q hi : Q) :
  Qle_bool 0 q = true ->
  Qle_bool (area_partial_Q (2 * m) q) hi = true ->
  gauss_area (Q2R q) <= Q2R hi.
Proof.
  intros Hq Hhi. apply Qle_bool_iff, Qle_Rle in Hq, Hhi.
  rewrite Q2R_area_partial in Hhi.
  replace (Q2R 0) with 0 in Hq by (unfold Q2R; simpl; field).
  pose proof (gauss_area_le_even m (Q2R q) Hq). lra.
Qed.

Lemma gauss_area_lower (m : nat) (q lo : Q) :
  Qle_bool 0 q = true ->
  Qle_bool lo (area_partial_Q (S (2 * m)) q) = true ->
  Q2R lo <= gauss_area (Q2R q).
Proof.
  intros Hq Hlo. apply Qle_bool_iff, Qle_Rle in Hq, Hlo.
  rewrite Q2R_area_partial in Hlo.
  replace (Q2R 0) with 0 in Hq by (unfold Q2R; simpl; field).
  pose proof (gauss_area_ge_odd m (Q2R q) Hq). lra.
Qed.


(** *** Numerical enclosures *)

Lemma PI_bounds :
  314159265358 / 100000000000 < PI < 314159265360 / 100000000000.
Proof.
  pose proof (PI_2_3_7_ineq 5) as [H1 H2].
  unfold sum_f_R0, tg_alt, PI_2_3_7_tg, Ratan_seq in H1, H2.
  simpl in H1, H2.
  split; lra.
Qed.

Lemma sqrt_2PI_bounds : sqrt_2PI_lo < sqrt (2 * PI) < sqrt_2PI_hi.
Proof.
  pose proof PI_bounds as [Hlo Hhi]. unfold sqrt_2PI_lo, sqrt_2PI_hi. split.
  - rewrite <- (sqrt_square (250662827462 / 100000000000)) by lra.
    apply sqrt_lt_1; lra.
  - rewrite <- (sqrt_square (250662827464 / 100000000000)) by lra.
    apply sqrt_lt_1; lra.
Qed.

Lemma Q2R_0 : Q2R 0 = 0.
Proof. unfold Q2R. simpl. field. Qed.

(** [norm_cdf x <= c] from an evaluation of an even partial sum. *)
Lemma norm_cdf_upper (m : nat) (q c : Q) :
  Qle_bool 0 q = true ->
  Qle_bool (1 # 2) c = true ->
  Qle_bool (area_partial_Q (2 * m) q)
           ((c - (1 # 2)) * (250662827462 # 100000000000)) = true ->
  norm_cdf (Q2R q) <= Q2R c.
Proof.
  intros Hq Hc Hhi.
  pose proof (gauss_area_upper m q _ Hq Hhi) as HA.
  apply Qle_bool_iff, Qle_Rle in Hc.
  rewrite Q2R_mult, Q2R_minus in HA.
  change (Q2R (250662827462 # 100000000000)) with sqrt_2PI_lo in HA.
  replace (Q2R (1 # 2)) with (1 / 2) in HA, Hc by (unfold Q2R; simpl; field).
  pose proof sqrt_2PI_bounds as [Hlo _].
  assert (Hpos : 0 < sqrt_2PI_lo) by (unfold sqrt_2PI_lo; lra).
  unfold norm_cdf.
  assert (gauss_area (Q2R q) / sqrt (2 * PI) <= Q2R c - 1 / 2); [| lra].
  apply (Rmult_le_reg_r (sqrt (2 * PI))); [lra |].
  unfold Rdiv at 1. rewrite Rmult_assoc, Rinv_l, Rmult_1_r by lra.
  nra.
Qed.

(** [c <= norm_cdf x] from an evaluation of an odd partial sum. *)
Lemma norm_cdf_lower (m : nat) (q c : Q) :
  Qle_bool 0 q = true ->
  Qle_bool (1 # 2) c = true ->
  Qle_bool ((c - (1 # 2)) * (250662827464 # 100000000000))
           (area_partial_Q (S (2 * m)) q) = true ->
  Q2R c <= norm_cdf (Q2R q).
Proof.
  intros Hq Hc Hlo.
  pose proof (gauss_area_lower m q _ Hq Hlo) as HA.
  apply Qle_bool_iff, Qle_Rle in Hc.
  rewrite Q2R_mult, Q2R_minus in HA.
  change (Q2R (250662827464 # 100000000000)) with sqrt_2PI_hi in HA.
  replace (Q2R (1 # 2)) with (1 / 2) in HA, Hc by (unfold Q2R; simpl; field).
  pose proof sqrt_2PI_bounds as [Hlo' Hhi].
  assert (Hpos : 0 < sqrt_2PI_lo) by (unfold sqrt_2PI_lo; lra).
  unfold norm_cdf.
  assert (Q2R c - 1 / 2 <= gauss_area (Q2R q) / sqrt (2 * PI)); [| lra].
  apply (Rmult_le_reg_r (sqrt (2 * PI))); [lra |].
  unfold Rdiv at 2. rewrite Rmult_assoc, Rinv_l, Rmult_1_r by lra.
  nra.
Qed.

(** *** The quantile function *)

Lemma norm_ppf_unique (q z : R) : norm_cdf z = q -> norm_ppf q = z.
Proof.
  intro Hz. apply norm_cdf_injective. rewrite Hz. unfold norm_ppf.
  apply (epsilon_spec (inhabits 0) (fun z0 : R => norm_cdf z0 = q)).
  exists z. exact Hz.
Qed.

(** Where the distribution function crosses [q] between [a] and [b], the
    quantile is defined and lies between them. *)
Lemma norm_ppf_between (a b q : R) :
  a <= b -> norm_cdf a <= q <= norm_cdf b ->
  norm_cdf (norm_ppf q) = q /\ a <= norm_ppf q <= b.
Proof.
  intros Hab [Ha Hb].
  destruct (IVT_cor (fun z => norm_cdf z - q) a b) as [z [Hz Hz0]].
  - intro x. apply (continuity_pt_minus norm_cdf (fun _ => q)).
    + apply norm_cdf_continuity.
    + apply continuity_pt_const. intros u v. reflexivity.
  - exact Hab.
  - nra.
  - assert (E : norm_cdf z = q) by lra.
    rewrite (norm_ppf_unique q z E). split; [exact E | exact Hz].
Qed.

Lemma norm_ppf_between_strict (a b q : R) :
  norm_cdf a < q < norm_cdf b ->
  norm_cdf (norm_ppf q) = q /\ a < norm_ppf q < b.
Proof.
  intros [Ha Hb].
  assert (Hab : a <= b).
  { destruct (Rle_or_lt a b) as [H | H]; [exact H |].
    apply norm_cdf_increasing in H. lra. }
  destruct (norm_ppf_between a b q Hab) as [E [H1 H2]]; [lra |].
  split; [exact E |]. split.
  - destruct H1 as [H1 | H1]; [exact H1 |]. rewrite <- H1 in E. lra.
  - destruct H2 as [H2 | H2]; [exact H2 |]. rewrite H2 in E. lra.
Qed.


Lemma norm_cdf_monotone (x y : R) : x <= y -> norm_cdf x <= norm_cdf y.
Proof.
  intros [H | <-]; [left; apply norm_cdf_increasing; exact H | right; reflexivity].
Qed.

(** *** Values of the distribution function used by the notebooks *)

Ltac norm_cdf_eval lem m :=
  match goal with
  | |- norm_cdf (IZR ?a / IZR (Zpos ?b)) <= IZR ?c / IZR (Zpos ?d) =>
      change (norm_cdf (Q2R (a # b)) <= Q2R (c # d));
      apply (lem m); vm_compute; reflexivity
  | |- IZR ?c / IZR (Zpos ?d) <= norm_cdf (IZR ?a / IZR (Zpos ?b)) =>
      change (Q2R (c # d) <= norm_cdf (Q2R (a # b)));
      apply (lem m); vm_compute; reflexivity
  end.

Lemma norm_cdf_1_9599635 :
  norm_cdf (19599635 / 10000000) <= 97499998 / 100000000.
Proof. norm_cdf_eval norm_cdf_upper 12%nat. Qed.

Lemma norm_cdf_1_9599645 :
  97500002 / 100000000 <= norm_cdf (19599645 / 10000000).
Proof. norm_cdf_eval norm_cdf_lower 12%nat. Qed.

Lemma norm_cdf_0_8416 : norm_cdf (8416 / 10000) <= 79999999 / 100000000.
Proof. norm_cdf_eval norm_cdf_upper 8%nat. Qed.

Lemma norm_cdf_0_8417 : 80000001 / 100000000 <= norm_cdf (8417 / 10000).
Proof. norm_cdf_eval norm_cdf_lower 8%nat. Qed.



Lemma norm_cdf_3_10236 : 99903 / 100000 <= norm_cdf (310236 / 100000).
Proof. norm_cdf_eval norm_cdf_lower 16%nat. Qed.

Lemma norm_cdf_3_10237 : norm_cdf (310237 / 100000) <= 99905 / 100000.
Proof. norm_cdf_eval norm_cdf_upper 16%nat. Qed.

(** The quantiles the notebooks ask for. *)
Lemma norm_ppf_0_975 :
  norm_cdf (norm_ppf (975 / 1000)) = 975 / 1000
  /\ 19599635 / 10000000 < norm_ppf (975 / 1000) < 19599645 / 10000000.
Proof.
  apply norm_ppf_between_strict.
  pose proof norm_cdf_1_9599635. pose proof norm_cdf_1_9599645. lra.
Qed.

Lemma norm_ppf_0_8 :
  norm_cdf (norm_ppf (8 / 10)) = 8 / 10
  /\ 8416 / 10000 < norm_ppf (8 / 10) < 8417 / 10000.
Proof.
  apply norm_ppf_between_strict.
  pose proof norm_cdf_0_8416. pose proof norm_cdf_0_8417. lra.
Qed.


End NormalFacts.

(** ** Facts about the value model *)

Module NumPyFacts.

Lemma py_truediv_nonzero (a b : R) :
  b <> 0 -> py_truediv a b = Return (a / b).
Proof.
  intro Hb. unfold py_truediv.
  destruct (Req_dec_T b 0) as [E | _]; [contradiction | reflexivity].
Qed.

Lemma py_truediv_zero (a : R) : py_truediv a 0 = Raise ZeroDivisionError.
Proof.
  unfold py_truediv.
  destruct (Req_dec_T 0 0) as [_ | N]; [reflexivity | contradiction N; reflexivity].
Qed.

Lemma np_sqrt_nonneg (r : R) : 0 <= r -> np_sqrt (Fin r) = Fin (sqrt r).
Proof.
  intro Hr. unfold np_sqrt.
  destruct (Rlt_dec r 0) as [H | _]; [lra | reflexivity].
Qed.

Lemma np_sqrt_neg (r : R) : r < 0 -> np_sqrt (Fin r) = NaN.
Proof.
  intro Hr. unfold np_sqrt.
  destruct (Rlt_dec r 0) as [_ | H]; [reflexivity | contradiction].
Qed.

Lemma np_div_nonzero (a b : R) :
  b <> 0 -> np_div (Fin a) (Fin b) = Fin (a / b).
Proof.
  intro Hb. unfold np_div.
  destruct (Req_dec_T b 0) as [E | _]; [contradiction | reflexivity].
Qed.

Lemma np_div_zero (a : R) : np_div (Fin a) (Fin 0) = signed_inf a.
Proof.
  unfold np_div.
  destruct (Req_dec_T 0 0) as [_ | N]; [reflexivity | contradiction N; reflexivity].
Qed.

Lemma signed_inf_zero : signed_inf 0 = NaN.
Proof.
  unfold signed_inf.
  destruct (Req_dec_T 0 0) as [_ | N]; [reflexivity | contradiction N; reflexivity].
Qed.

Lemma signed_inf_pos (a : R) : 0 < a -> signed_inf a = PInf.
Proof.
  intro Ha. unfold signed_inf.
  destruct (Req_dec_T a 0) as [E | _]; [lra |].
  destruct (Rlt_dec 0 a) as [_ | N]; [reflexivity | contradiction].
Qed.

Lemma signed_inf_neg (a : R) : a < 0 -> signed_inf a = NInf.
Proof.
  intro Ha. unfold signed_inf.
  destruct (Req_dec_T a 0) as [E | _]; [lra |].
  destruct (Rlt_dec 0 a) as [H | _]; [lra | reflexivity].
Qed.

Lemma signed_inf_not_fin (a r : R) : signed_inf a <> Fin r.
Proof.
  unfold signed_inf.
  destruct (Req_dec_T a 0); [discriminate |].
  destruct (Rlt_dec 0 a); discriminate.
Qed.

Lemma np_ltb_fin (a b : R) : np_ltb (Fin a) (Fin b) = true <-> a < b.
Proof.
  unfold np_ltb. destruct (Rlt_dec a b) as [H | H]; split; intro H'.
  - exact H.
  - reflexivity.
  - discriminate.
  - contradiction.
Qed.

Lemma np_norm_ppf_inside (q : R) :
  0 < q < 1 -> np_norm_ppf q = Fin (Normal.norm_ppf q).
Proof.
  intros [H0 H1]. unfold np_norm_ppf.
  destruct (Req_dec_T q 0) as [E | _]; [lra |].
  destruct (Req_dec_T q 1) as [E | _]; [lra |].
  destruct (Rlt_dec 0 q) as [_ | N]; [| contradiction].
  destruct (Rlt_dec q 1) as [_ | N]; [reflexivity | contradiction].
Qed.

Lemma len_pos (xs : list R) : xs <> [] -> 0 < len xs.
Proof.
  intro Hxs. unfold len. destruct xs as [| x xs]; [contradiction |].
  apply lt_0_INR. simpl. lia.
Qed.

Lemma np_mean_nonempty (xs : list R) :
  xs <> [] -> np_mean xs = Fin (mean xs).
Proof.
  intro Hxs. unfold np_mean, mean. apply np_div_nonzero.
  pose proof (len_pos xs Hxs). lra.
Qed.

Lemma total_repeat (c : R) (n : nat) : total (repeat c n) = INR n * c.
Proof.
  induction n as [| n IH].
  - simpl. ring.
  - change (total (repeat c (S n))) with (c + total (repeat c n)).
    rewrite IH, S_INR. ring.
Qed.

Lemma total_app (xs ys : list R) : total (xs ++ ys) = total xs + total ys.
Proof.
  unfold total. induction xs as [| x xs IH]; simpl.
  - ring.
  - rewrite IH. ring.
Qed.

End NumPyFacts.

(** ** The A/B test *)

Module ABTest.

Import Normal NormalFacts NumPyFacts HypothesisTesting Reference.

(** With non-zero group sizes no Python division raises, and the cell
    returns the record of its NumPy computations. *)
Lemma twoProportionZTest_returns (conv_A n_A conv_B n_B : Z) (alpha : R) :
  n_A <> 0%Z -> n_B <> 0%Z ->
  let pA := IZR conv_A / IZR n_A in
  let pB := IZR conv_B / IZR n_B in
  let sA := np_sqrt (Fin (pA * (1 - pA) / IZR n_A)) in
  let sB := np_sqrt (Fin (pB * (1 - pB) / IZR n_B)) in
  let sd := np_sqrt (np_add (np_square sA) (np_square sB)) in
  let z := np_div (Fin (pB - pA)) sd in
  let p := np_mul (Fin 2) (np_sub (Fin 1) (np_norm_cdf (np_abs z))) in
  twoProportionZTest conv_A n_A conv_B n_B alpha
  = Return {| p_A := pA; p_B := pB; se_A := sA; se_B := sB; se_diff := sd;
              z_score := z; p_value := p; conclusion := conclude p alpha |}.
Proof.
  intros HA HB. cbv zeta. unfold twoProportionZTest.
  assert (HA' : IZR n_A <> 0) by (apply not_0_IZR; exact HA).
  assert (HB' : IZR n_B <> 0) by (apply not_0_IZR; exact HB).
  rewrite (py_truediv_nonzero (IZR conv_A) (IZR n_A) HA'). cbn [bind].
  rewrite (py_truediv_nonzero (IZR conv_B) (IZR n_B) HB'). cbn [bind].
  rewrite (py_truediv_nonzero _ (IZR n_A) HA'). cbn [bind].
  rewrite (py_truediv_nonzero _ (IZR n_B) HB'). cbn [bind].
  reflexivity.
Qed.

(** A zero group size raises [ZeroDivisionError]. *)
Lemma twoProportionZTest_raises (conv_A n_A conv_B n_B : Z) (alpha : R) :
  n_A = 0%Z \/ n_B = 0%Z ->
  twoProportionZTest conv_A n_A conv_B n_B alpha = Raise ZeroDivisionError.
Proof.
  intros [-> | ->]; unfold twoProportionZTest.
  - rewrite py_truediv_zero. reflexivity.
  - destruct (Z.eq_dec n_A 0) as [-> | HA].
    + rewrite py_truediv_zero. reflexivity.
    + rewrite (py_truediv_nonzero (IZR conv_A) (IZR n_A))
        by (apply not_0_IZR; exact HA).
      cbn [bind]. rewrite py_truediv_zero. reflexivity.
Qed.

(** The p-value of the cell is a finite number or NaN, never an infinity. *)
Lemma p_value_shape (z : npfloat) :
  np_mul (Fin 2) (np_sub (Fin 1) (np_norm_cdf (np_abs z))) = NaN
  \/ exists r : R,
       np_mul (Fin 2) (np_sub (Fin 1) (np_norm_cdf (np_abs z))) = Fin r.
Proof.
  destruct z as [r | | |]; cbn.
  - right. eexists. reflexivity.
  - right. eexists. reflexivity.
  - right. eexists. reflexivity.
  - left. reflexivity.
Qed.

(** The rule of the [if] on a p-value that is a number or NaN. *)
Lemma conclude_rule (pv : npfloat) (alpha : R) :
  pv = NaN \/ (exists r : R, pv = Fin r) ->
  conclude pv alpha = REJECT_NULL <-> exists p : R, pv = Fin p /\ p < alpha.
Proof.
  intros [-> | [q ->]]; unfold conclude.
  - cbn. split; [discriminate | intros [p [Hp _]]; discriminate].
  - destruct (np_ltb (Fin q) (Fin alpha)) eqn:Hlt.
    + apply np_ltb_fin in Hlt. split; [| reflexivity].
      intros _. exists q. split; [reflexivity | exact Hlt].
    + split; [discriminate |].
      intros [p [Hp Hlt']]. injection Hp as <-.
      apply np_ltb_fin in Hlt'. congruence.
Qed.

Lemma scenario_se_diff_sqr :
  0 < scenario_se_diff
  /\ scenario_se_diff * scenario_se_diff = 1039 / 100000000.
Proof.
  unfold scenario_se_diff.
  rewrite !sqrt_sqrt by lra.
  split.
  - apply sqrt_lt_R0. lra.
  - lra.
Qed.

Lemma scenario_z_bounds : 310236 / 100000 < scenario_z < 310237 / 100000.
Proof.
  destruct scenario_se_diff_sqr as [Hpos Hsqr]. unfold scenario_z.
  assert (H1 : 100000 / 31023700 < scenario_se_diff) by nra.
  assert (H2 : scenario_se_diff < 100000 / 31023600) by nra.
  split.
  - apply (Rmult_lt_reg_r scenario_se_diff); [exact Hpos |].
    unfold Rdiv at 2. rewrite Rmult_assoc, Rinv_l, Rmult_1_r by lra. lra.
  - apply (Rmult_lt_reg_r scenario_se_diff); [exact Hpos |].
    unfold Rdiv at 1. rewrite Rmult_assoc, Rinv_l, Rmult_1_r by lra. lra.
Qed.

Lemma scenario_p_bounds : 190 / 100000 <= scenario_p <= 194 / 100000.
Proof.
  destruct scenario_z_bounds as [Hlo Hhi]. unfold scenario_p.
  rewrite Rabs_pos_eq by lra.
  pose proof (norm_cdf_monotone _ _ (Rlt_le _ _ Hlo)).
  pose proof (norm_cdf_monotone _ _ (Rlt_le _ _ Hhi)).
  pose proof norm_cdf_3_10236. pose proof norm_cdf_3_10237.
  lra.
Qed.

Lemma twoProportionZTest_scenario :
  twoProportionZTest 500 10000 600 10000 (5 / 100)
  = Return {| p_A := 500 / 10000; p_B := 600 / 10000;
              se_A := Fin (sqrt (500 / 10000 * (1 - 500 / 10000) / 10000));
              se_B := Fin (sqrt (600 / 10000 * (1 - 600 / 10000) / 10000));
              se_diff := Fin scenario_se_diff;
              z_score := Fin scenario_z;
              p_value := Fin scenario_p;
              conclusion := REJECT_NULL |}.
Proof.
  rewrite twoProportionZTest_returns by lia. cbv zeta.
  rewrite !np_sqrt_nonneg by lra.
  cbn [np_square np_mul np_add].
  fold scenario_se_diff.
  destruct scenario_se_diff_sqr as [Hpos Hsqr].
  rewrite np_sqrt_nonneg by (rewrite !sqrt_sqrt by lra; lra).
  fold scenario_se_diff.
  rewrite np_div_nonzero by lra. fold scenario_z.
  cbn [np_abs np_norm_cdf np_sub np_neg np_add np_mul].
  fold scenario_p.
  assert (Hd : conclude (Fin scenario_p) (5 / 100) = REJECT_NULL).
  { unfold conclude.
    assert (E : np_ltb (Fin scenario_p) (Fin (5 / 100)) = true).
    { apply np_ltb_fin. pose proof scenario_p_bounds. lra. }
    rewrite E. reflexivity. }
  rewrite Hd. reflexivity.
Qed.

End ABTest.

(** ** The minimum detectable effect *)

Module MDE.

Import Normal NormalFacts NumPyFacts HypothesisTesting.

(** With a positive sample size and [alpha], [power] strictly between 0 and
    1, every step of the cell is finite. *)
Lemma minimumDetectableEffect_returns (n : Z) (alpha power : R) :
  (0 < n)%Z -> 0 < alpha < 1 -> 0 < power < 1 ->
  minimumDetectableEffect n alpha power
  = Return (Fin ((norm_ppf (1 - alpha / 2) + norm_ppf power)
                 * sqrt (5 / 10 * (1 - 5 / 10) / IZR n) * sqrt 2)).
Proof.
  intros Hn Ha Hp. unfold minimumDetectableEffect.
  assert (Hn' : 0 < IZR n) by (apply IZR_lt in Hn; exact Hn).
  rewrite py_truediv_nonzero by lra. cbn [bind].
  rewrite !np_norm_ppf_inside by lra.
  rewrite np_sqrt_nonneg.
  2: { apply Rmult_le_pos; [lra |]. left. apply Rinv_0_lt_compat. exact Hn'. }
  rewrite np_sqrt_nonneg by lra.
  reflexivity.
Qed.


Lemma sqrt_2_pos : 0 < sqrt 2.
Proof. apply sqrt_lt_R0. lra. Qed.

(** At 5000 observations per group the standard error times [sqrt 2] is
    one hundredth. *)
Lemma se_5000 : sqrt (5 / 10 * (1 - 5 / 10) / 5000) * sqrt 2 = 1 / 100.
Proof.
  rewrite <- sqrt_mult by lra.
  replace (5 / 10 * (1 - 5 / 10) / 5000 * 2) with ((1 / 100) * (1 / 100))
    by field.
  apply sqrt_square. lra.
Qed.

End MDE.

(** ** CUPED *)

Module Cuped.

Import NumPyFacts HypothesisTesting Reference.

Lemma map2_length {A B C : Type} (f : A -> B -> C) (xs : list A) (ys : list B) :
  length xs = length ys -> length (map2 f xs ys) = length xs.
Proof.
  revert ys. induction xs as [| x xs IH]; intros [| y ys] H;
    simpl in *; try reflexivity; try discriminate.
  f_equal. apply IH. lia.
Qed.

Lemma map2_fin (theta m : R) (Y X : list R) :
  map2 (fun y x => np_sub (Fin y) (np_mul (Fin theta) (np_sub (Fin x) (Fin m))))
       Y X
  = map Fin (map2 (fun y x => y - theta * (x - m)) Y X).
Proof.
  revert X. induction Y as [| y Y IH]; intros [| x X]; simpl;
    try reflexivity.
  rewrite IH. reflexivity.
Qed.

Lemma total_map2_adjust (theta m : R) (Y X : list R) :
  length Y = length X ->
  total (map2 (fun y x => y - theta * (x - m)) Y X)
  = total Y - theta * (total X - len X * m).
Proof.
  unfold total, len. revert X.
  induction Y as [| y Y IH]; intros [| x X] H; try discriminate.
  - simpl. ring.
  - change (length (x :: X)) with (S (length X)). rewrite S_INR.
    simpl fold_right. simpl map2. simpl fold_right.
    rewrite IH by (simpl in H; lia). ring.
Qed.

Lemma dot_shift_adjust (a b theta m : R) (X Y : list R) :
  length Y = length X ->
  dot (map (fun x => x - a) X)
      (map (fun v => v - b) (map2 (fun y x => y - theta * (x - m)) Y X))
  = dot (map (fun x => x - a) X) (map (fun y => y - b) Y)
    - theta * dot (map (fun x => x - a) X) (map (fun x => x - m) X).
Proof.
  revert Y. induction X as [| x X IH]; intros [| y Y] H; try discriminate.
  - simpl. ring.
  - simpl. rewrite IH by (simpl in H; lia). ring.
Qed.

(** The deviations of an array sum to zero. *)
Lemma total_mean (X : list R) : X <> [] -> total X - len X * mean X = 0.
Proof.
  intro HX. unfold mean. pose proof (len_pos X HX). field. lra.
Qed.

Lemma mean_adjusted (theta : R) (Y X : list R) :
  length Y = length X -> X <> [] -> mean (adjusted theta Y X) = mean Y.
Proof.
  intros Hlen HX. unfold mean at 1 2. unfold adjusted.
  rewrite total_map2_adjust by exact Hlen.
  rewrite total_mean by exact HX.
  unfold len. rewrite map2_length by exact Hlen. rewrite Rmult_0_r, Rminus_0_r.
  reflexivity.
Qed.

(** The cross products of the covariate with the adjusted outcome. *)
Lemma dot_centered_adjusted (theta : R) (Y X : list R) :
  length Y = length X -> X <> [] ->
  dot (centered X) (centered (adjusted theta Y X))
  = dot (centered X) (centered Y) - theta * dot (centered X) (centered X).
Proof.
  intros Hlen HX. unfold centered at 2.
  rewrite mean_adjusted by assumption.
  unfold adjusted, centered. apply dot_shift_adjust. exact Hlen.
Qed.

Lemma np_cov01_fin (X Y : list R) :
  length X = length Y -> (2 <= length X)%nat ->
  np_cov01 X Y = Return (Fin (cov_sample X Y)).
Proof.
  intros Hlen Hn. unfold np_cov01, cov_sample.
  rewrite Hlen, Nat.eqb_refl, <- Hlen.
  assert (E : INR (length X - 1) = len X - 1).
  { unfold len. rewrite minus_INR by lia. reflexivity. }
  assert (H1 : 1 < len X) by (unfold len; apply (lt_INR 1); lia).
  rewrite E, np_div_nonzero by lra.
  cbn [np_mul]. do 2 f_equal. field. lra.
Qed.

Lemma np_var0_fin (X : list R) :
  X <> [] -> np_var X 0 = Fin (var_pop X).
Proof.
  intro HX. unfold np_var, var_pop.
  rewrite Nat.sub_0_r. fold (len X).
  apply np_div_nonzero. pose proof (len_pos X HX). lra.
Qed.

Lemma nonempty_of_length (X : list R) : (2 <= length X)%nat -> X <> [].
Proof. intros H ->. simpl in H. lia. Qed.

(** The coefficient of the cell: sample covariance over population
    variance. *)
Lemma cuped_theta_fin (X Y : list R) :
  length X = length Y -> (2 <= length X)%nat -> var_pop X <> 0 ->
  cuped_theta X Y = Return (Fin (cov_sample X Y / var_pop X)).
Proof.
  intros Hlen Hn Hv. unfold cuped_theta.
  rewrite np_cov01_fin by assumption. cbn [bind].
  rewrite np_var0_fin by (apply nonempty_of_length; exact Hn).
  rewrite np_div_nonzero by exact Hv. reflexivity.
Qed.

Lemma cupedAdjust_fin (Y X : list R) :
  length X = length Y -> (2 <= length X)%nat -> var_pop X <> 0 ->
  cupedAdjust Y X
  = Return (map Fin (adjusted (cov_sample X Y / var_pop X) Y X)).
Proof.
  intros Hlen Hn Hv. unfold cupedAdjust.
  rewrite cuped_theta_fin by assumption. cbn [bind].
  rewrite np_mean_nonempty by (apply nonempty_of_length; exact Hn).
  rewrite map2_fin. reflexivity.
Qed.

(** The covariance of the covariate with the adjusted outcome, for the
    coefficient of the cell. *)
Lemma residual_covariance (Y X : list R) :
  length X = length Y -> (2 <= length X)%nat -> var_pop X <> 0 ->
  cov_sample X (adjusted (cov_sample X Y / var_pop X) Y X)
  = - cov_sample X Y / (len X - 1).
Proof.
  intros Hlen Hn Hv.
  assert (HX : X <> []) by (apply nonempty_of_length; exact Hn).
  assert (H1 : 1 < len X) by (unfold len; apply (lt_INR 1); lia).
  unfold cov_sample at 1.
  rewrite dot_centered_adjusted by (auto using eq_sym).
  unfold cov_sample, var_pop in *.
  set (sxy := dot (centered X) (centered Y)) in *.
  set (sxx := dot (centered X) (centered X)) in *.
  assert (Hsxx : sxx <> 0).
  { intro E. apply Hv. rewrite E. unfold Rdiv. ring. }
  field. repeat split; lra.
Qed.

(** With the same denominator in the covariance and in the variance (here
    the population ones), the adjusted outcome has no covariance with the
    covariate. *)
Lemma consistent_theta_removes_covariance (Y X : list R) :
  length X = length Y -> X <> [] -> var_pop X <> 0 ->
  dot (centered X) (centered (adjusted (cov_pop X Y / var_pop X) Y X)) = 0.
Proof.
  intros Hlen HX Hv.
  rewrite dot_centered_adjusted by (auto using eq_sym).
  pose proof (len_pos X HX) as Hn.
  unfold cov_pop, var_pop in *.
  set (sxy := dot (centered X) (centered Y)) in *.
  set (sxx := dot (centered X) (centered X)) in *.
  assert (Hsxx : sxx <> 0).
  { intro E. apply Hv. rewrite E. unfold Rdiv. ring. }
  field. split; lra.
Qed.

End Cuped.

(** ** Confidence intervals *)

Module Intervals.

Import Normal NormalFacts NumPyFacts HypothesisTesting ConfidenceIntervals.
Import Reference.

Lemma sqrt_len_pos (xs : list R) : xs <> [] -> 0 < sqrt (len xs).
Proof. intro H. apply sqrt_lt_R0, len_pos, H. Qed.

(** On a non-empty sample every step of the known-variance cell is
    finite. *)
Lemma meanIntervalKnownVariance_fin (data : list R) (sigma : R) :
  data <> [] ->
  let half := norm_ppf (975 / 1000) * (sigma / sqrt (len data)) in
  meanIntervalKnownVariance data sigma
  = (Fin (mean data + - half), Fin (mean data + half)).
Proof.
  intros Hd. cbv zeta. unfold meanIntervalKnownVariance.
  pose proof (len_pos data Hd) as Hn.
  pose proof (sqrt_len_pos data Hd) as Hs.
  rewrite np_mean_nonempty by exact Hd.
  rewrite np_norm_ppf_inside by lra.
  rewrite np_sqrt_nonneg by lra.
  rewrite np_div_nonzero by lra.
  reflexivity.
Qed.

Lemma two_tailed_order_95 : two_tailed_order (95 / 100) = 975 / 1000.
Proof. unfold two_tailed_order. lra. Qed.

Lemma dot_self_nonneg (xs : list R) : 0 <= dot xs xs.
Proof.
  induction xs as [| x xs IH]; simpl; [lra |].
  pose proof (Rle_0_sqr x) as H. unfold Rsqr in H. lra.
Qed.

Lemma len_minus_1 (xs : list R) :
  (2 <= length xs)%nat -> INR (length xs - 1) = len xs - 1 /\ 0 < len xs - 1.
Proof.
  intro H. unfold len. rewrite minus_INR by lia. split; [reflexivity |].
  pose proof (lt_INR 1 (length xs) ltac:(lia)) as H1. simpl in H1. lra.
Qed.

Lemma var_sample_nonneg (xs : list R) :
  (2 <= length xs)%nat -> 0 <= var_sample xs.
Proof.
  intro H. unfold var_sample. destruct (len_minus_1 xs H) as [_ Hpos].
  apply Rmult_le_pos; [apply dot_self_nonneg |].
  left. apply Rinv_0_lt_compat. exact Hpos.
Qed.

Lemma np_var1_fin (xs : list R) :
  (2 <= length xs)%nat -> np_var xs 1 = Fin (var_sample xs).
Proof.
  intro H. unfold np_var, var_sample.
  destruct (len_minus_1 xs H) as [E Hpos].
  rewrite E. apply np_div_nonzero. lra.
Qed.

(** On samples of at least two entries every step of the two-means cell is
    finite; the divisors [100] and the degrees of freedom [198] are those of
    the cell. *)
Lemma twoMeanDifferenceInterval_fin
  (t_ppf : R -> R -> R) (sample1 sample2 : list R) :
  (2 <= length sample1)%nat -> (2 <= length sample2)%nat ->
  let half :=
    t_ppf (975 / 1000) 198
    * sqrt (var_sample sample1 / 100 + var_sample sample2 / 100) in
  twoMeanDifferenceInterval t_ppf sample1 sample2
  = (Fin (mean sample1 + - mean sample2 + - half),
     Fin (mean sample1 + - mean sample2 + half)).
Proof.
  intros H1 H2. cbv zeta. unfold twoMeanDifferenceInterval.
  rewrite !np_mean_nonempty by (apply Cuped.nonempty_of_length; assumption).
  rewrite !np_var1_fin by assumption.
  rewrite !np_div_nonzero by lra.
  cbn [np_add np_sub np_neg].
  pose proof (var_sample_nonneg sample1 H1).
  pose proof (var_sample_nonneg sample2 H2).
  rewrite np_sqrt_nonneg by lra.
  reflexivity.
Qed.

Lemma mean_repeat (c : R) (n : nat) : (0 < n)%nat -> mean (repeat c n) = c.
Proof.
  intro Hn. unfold mean, len. rewrite total_repeat, repeat_length.
  field. apply not_0_INR. lia.
Qed.

Lemma dot_map_repeat (f : R -> R) (c : R) (n : nat) :
  dot (map f (repeat c n)) (map f (repeat c n)) = INR n * (f c * f c).
Proof.
  induction n as [| n IH].
  - simpl. ring.
  - change (repeat c (S n)) with (c :: repeat c n).
    cbn [map dot]. rewrite IH, S_INR. ring.
Qed.

Lemma var_sample_repeat (c : R) (n : nat) :
  (0 < n)%nat -> var_sample (repeat c n) = 0.
Proof.
  intro Hn. unfold var_sample, centered.
  rewrite dot_map_repeat, mean_repeat by exact Hn.
  unfold Rdiv. ring.
Qed.

Lemma half_zeros_half_ones_length (k : nat) :
  length (half_zeros_half_ones k) = (k + k)%nat.
Proof.
  unfold half_zeros_half_ones. rewrite length_app, !repeat_length. reflexivity.
Qed.

Lemma var_sample_half_pos (k : nat) :
  (1 <= k)%nat -> 0 < var_sample (half_zeros_half_ones k).
Proof.
  intro Hk.
  assert (Hlen : (2 <= length (half_zeros_half_ones k))%nat)
    by (rewrite half_zeros_half_ones_length; lia).
  destruct (len_minus_1 _ Hlen) as [_ Hpos].
  assert (Hmean : mean (half_zeros_half_ones k) = 1 / 2).
  { unfold mean, len. rewrite half_zeros_half_ones_length.
    unfold half_zeros_half_ones. rewrite total_app, !total_repeat, plus_INR.
    field. assert (0 < INR k) by (apply lt_0_INR; lia). lra. }
  unfold var_sample, centered. rewrite Hmean.
  apply Rmult_lt_0_compat; [| apply Rinv_0_lt_compat; exact Hpos].
  unfold half_zeros_half_ones. destruct k as [| k]; [lia |].
  change (repeat 0 (S k)) with (0 :: repeat 0 k).
  cbn [app map dot].
  pose proof (dot_self_nonneg
                (map (fun x => x - 1 / 2) (repeat 0 k ++ repeat 1 (S k)))).
  lra.
Qed.

Lemma sqrt_2_gt_1 : 1 < sqrt 2.
Proof. rewrite <- sqrt_1 at 1. apply sqrt_lt_1; lra. Qed.

(** With any quantile function that behaves like Student's, the cell and
    the formula differ on two samples of two entries: the cell divides by
    [100] and takes [198] degrees of freedom. *)
Lemma two_means_differ_on_size (t_ppf : R -> R -> R) :
  student_like t_ppf ->
  twoMeanDifferenceInterval t_ppf [0; 2] [0; 2]
  <> spec_twoMeanDifferenceInterval t_ppf [0; 2] [0; 2] (95 / 100).
Proof.
  intros [Hpos [_ Hdf]] E.
  rewrite twoMeanDifferenceInterval_fin in E by (simpl; lia).
  unfold spec_twoMeanDifferenceInterval in E. cbv zeta in E.
  rewrite two_tailed_order_95 in E.
  assert (Hv : var_sample [0; 2] = 2).
  { unfold var_sample, centered, mean, total, len. simpl. field. }
  assert (Hl : len [0; 2] = 2) by (unfold len; simpl; lra).
  rewrite Hv, Hl in E.
  replace (2 + 2 - 2) with 2 in E by lra.
  replace (2 / 100 + 2 / 100) with ((2 / 10) * (2 / 10)) in E by field.
  replace (2 / 2 + 2 / 2) with 2 in E by field.
  rewrite sqrt_square in E by lra.
  injection E as _ E.
  pose proof (Hpos (975 / 1000) 198 ltac:(lra) ltac:(lra)) as H198.
  pose proof (Hdf (975 / 1000) 2 198 ltac:(lra) ltac:(lra) ltac:(lra)) as H2.
  pose proof sqrt_2_gt_1. nra.
Qed.

(** With any quantile function that behaves like Student's, the cell and
    the formula differ at the confidence level [0.5] on samples of a
    hundred entries: the cell takes the quantile of order [0.975]. *)
Lemma two_means_differ_on_level (t_ppf : R -> R -> R) :
  student_like t_ppf ->
  twoMeanDifferenceInterval t_ppf
    (half_zeros_half_ones 50) (half_zeros_half_ones 50)
  <> spec_twoMeanDifferenceInterval t_ppf
       (half_zeros_half_ones 50) (half_zeros_half_ones 50) (1 / 2).
Proof.
  intros [_ [Hq _]] E.
  rewrite twoMeanDifferenceInterval_fin in E
    by (rewrite half_zeros_half_ones_length; lia).
  unfold spec_twoMeanDifferenceInterval in E. cbv zeta in E.
  assert (Hl : len (half_zeros_half_ones 50) = 100).
  { unfold len. rewrite half_zeros_half_ones_length. simpl. lra. }
  rewrite Hl in E.
  replace (two_tailed_order (1 / 2)) with (75 / 100) in E
    by (unfold two_tailed_order; lra).
  replace (100 + 100 - 2) with 198 in E by lra.
  pose proof (var_sample_half_pos 50 ltac:(lia)) as Hv.
  set (v := var_sample (half_zeros_half_ones 50)) in *.
  assert (Hs : 0 < sqrt (v / 100 + v / 100)) by (apply sqrt_lt_R0; lra).
  injection E as _ E.
  pose proof (Hq (75 / 100) (975 / 1000) 198
                ltac:(lra) ltac:(lra) ltac:(lra) ltac:(lra)) as Ht.
  nra.
Qed.

(** A function with the properties asked of Student's quantile function. *)
Lemma student_like_example :
  student_like (fun q df => (q - 1 / 2) * (1 + / df)).
Proof.
  repeat split.
  - intros q df Hq Hdf.
    assert (0 < / df) by (apply Rinv_0_lt_compat; exact Hdf).
    apply Rmult_lt_0_compat; lra.
  - intros q1 q2 df H1 H12 H2 Hdf.
    assert (0 < / df) by (apply Rinv_0_lt_compat; exact Hdf).
    apply Rmult_lt_compat_r; lra.
  - intros q df1 df2 Hq Hdf1 Hdf12.
    assert (/ df2 <= / df1) by (apply Rinv_le_contravar; assumption).
    apply Rmult_le_compat_l; lra.
Qed.

(** The accumulation of the chi-square statistic. *)
Lemma chi_square_from_zero (acc : R) (observed expected : list R) :
  length observed = length expected -> In 0 expected ->
  chi_square_from acc observed expected = Fails DivisionByZeroError.
Proof.
  revert acc expected.
  induction observed as [| o os IH]; intros acc [| e es] Hlen Hin;
    try discriminate; try contradiction.
  cbn [chi_square_from].
  destruct (Req_dec_T e 0) as [E | N]; [reflexivity |].
  apply IH; [simpl in Hlen; lia |].
  destruct Hin as [Hin | Hin]; [congruence | exact Hin].
Qed.

Lemma chi_square_from_nonzero (acc : R) (observed expected : list R) :
  length observed = length expected -> ~ In 0 expected ->
  chi_square_from acc observed expected
  = Ok (acc + total (map2 (fun o e => (o - e) ^ 2 / e) observed expected)).
Proof.
  revert acc expected.
  induction observed as [| o os IH]; intros acc [| e es] Hlen Hin;
    try discriminate.
  - cbn. f_equal. unfold total. simpl. ring.
  - cbn [chi_square_from].
    destruct (Req_dec_T e 0) as [E | N].
    { exfalso. apply Hin. left. exact E. }
    rewrite IH; [| simpl in Hlen; lia | intro H; apply Hin; right; exact H].
    f_equal. unfold total. simpl. ring.
Qed.

End Intervals.

(** ** More on the A/B test *)

Module ABTestMore.

Import Normal NormalFacts NumPyFacts HypothesisTesting Reference.

Lemma np_add_comm (x y : npfloat) : np_add x y = np_add y x.
Proof.
  destruct x as [a | | |], y as [b | | |]; cbn; try reflexivity.
  f_equal. ring.
Qed.

Lemma np_add_nan_r (x : npfloat) : np_add x NaN = NaN.
Proof. destruct x; reflexivity. Qed.

Lemma signed_inf_opp (a : R) : signed_inf (- a) = np_neg (signed_inf a).
Proof.
  destruct (Rtotal_order a 0) as [H | [-> | H]].
  - rewrite signed_inf_pos, signed_inf_neg by lra. reflexivity.
  - rewrite Ropp_0, signed_inf_zero. reflexivity.
  - rewrite signed_inf_neg, signed_inf_pos by lra. reflexivity.
Qed.

Lemma np_div_opp_l (a : R) (y : npfloat) :
  np_div (Fin (- a)) y = np_neg (np_div (Fin a) y).
Proof.
  destruct y as [b | | |]; cbn [np_div np_neg]; try reflexivity.
  - destruct (Req_dec_T b 0) as [E | N].
    + apply signed_inf_opp.
    + cbn. f_equal. field. exact N.
  - f_equal. ring.
  - f_equal. ring.
Qed.

Lemma np_abs_neg (x : npfloat) : np_abs (np_neg x) = np_abs x.
Proof.
  destruct x as [a | | |]; cbn; try reflexivity.
  rewrite Rabs_Ropp. reflexivity.
Qed.

(** The p-value and the conclusion are functions of the statistic. *)
Lemma record_shape (conv_A n_A conv_B n_B : Z) (alpha : R) (r : ab_test) :
  twoProportionZTest conv_A n_A conv_B n_B alpha = Return r ->
  n_A <> 0%Z /\ n_B <> 0%Z
  /\ p_A r = IZR conv_A / IZR n_A /\ p_B r = IZR conv_B / IZR n_B
  /\ se_A r = np_sqrt (Fin (p_A r * (1 - p_A r) / IZR n_A))
  /\ se_B r = np_sqrt (Fin (p_B r * (1 - p_B r) / IZR n_B))
  /\ se_diff r = np_sqrt (np_add (np_square (se_A r)) (np_square (se_B r)))
  /\ z_score r = np_div (Fin (p_B r - p_A r)) (se_diff r)
  /\ p_value r
     = np_mul (Fin 2) (np_sub (Fin 1) (np_norm_cdf (np_abs (z_score r))))
  /\ conclusion r = conclude (p_value r) alpha.
Proof.
  intro Hr.
  destruct (Z.eq_dec n_A 0) as [HA | HA].
  { rewrite ABTest.twoProportionZTest_raises in Hr by (left; exact HA).
    discriminate. }
  destruct (Z.eq_dec n_B 0) as [HB | HB].
  { rewrite ABTest.twoProportionZTest_raises in Hr by (right; exact HB).
    discriminate. }
  rewrite ABTest.twoProportionZTest_returns in Hr by assumption.
  cbv zeta in Hr. injection Hr as <-. cbn.
  repeat split; try assumption; reflexivity.
Qed.

Lemma p_value_fin (z : R) :
  np_mul (Fin 2) (np_sub (Fin 1) (np_norm_cdf (np_abs (Fin z))))
  = Fin (2 * (1 + - norm_cdf (Rabs z))).
Proof. reflexivity. Qed.

Lemma conclude_fin (p alpha : R) :
  conclude (Fin p) alpha = REJECT_NULL <-> p < alpha.
Proof.
  unfold conclude. destruct (np_ltb (Fin p) (Fin alpha)) eqn:E.
  - apply np_ltb_fin in E. split; [intros _; exact E | reflexivity].
  - split; [discriminate |]. intro H. apply np_ltb_fin in H. congruence.
Qed.

Lemma conclude_cases (p : npfloat) (alpha : R) :
  conclude p alpha = REJECT_NULL \/ conclude p alpha = FAIL_TO_REJECT.
Proof. unfold conclude. destruct (np_ltb p (Fin alpha)); auto. Qed.

Lemma norm_cdf_lt_iff (x y : R) : norm_cdf x < norm_cdf y <-> x < y.
Proof.
  split; [| apply norm_cdf_increasing].
  intro H. destruct (Rle_or_lt y x) as [Hyx | Hxy]; [| exact Hxy].
  apply norm_cdf_monotone in Hyx. lra.
Qed.

End ABTestMore.

(** ** More on the minimum detectable effect *)

Module MDEMore.

Import Normal NormalFacts NumPyFacts HypothesisTesting Reference.

Lemma np_mul_nan_r (x : npfloat) : np_mul x NaN = NaN.
Proof. destruct x; reflexivity. Qed.

Lemma np_norm_ppf_outside (q : R) : q < 0 \/ 1 < q -> np_norm_ppf q = NaN.
Proof.
  intro H. unfold np_norm_ppf.
  destruct (Req_dec_T q 0) as [E | _]; [lra |].
  destruct (Req_dec_T q 1) as [E | _]; [lra |].
  destruct (Rlt_dec 0 q) as [H0 | _]; [| reflexivity].
  destruct (Rlt_dec q 1) as [H1 | _]; [lra | reflexivity].
Qed.

Lemma np_norm_ppf_one : np_norm_ppf 1 = PInf.
Proof.
  unfold np_norm_ppf.
  destruct (Req_dec_T 1 0) as [E | _]; [lra |].
  destruct (Req_dec_T 1 1) as [_ | N]; [reflexivity | contradiction N; reflexivity].
Qed.

Lemma se_pos (n : Z) : (0 < n)%Z -> 0 < sqrt (5 / 10 * (1 - 5 / 10) / IZR n).
Proof.
  intro Hn. apply sqrt_lt_R0.
  apply Rdiv_lt_0_compat; [lra | apply IZR_lt in Hn; exact Hn].
Qed.


End MDEMore.

(** ** More on CUPED *)

Module CupedMore.

Import NumPyFacts HypothesisTesting Reference.

Lemma total_map_shift (c : R) (X : list R) :
  total (map (fun x => x + c) X) = total X + len X * c.
Proof.
  unfold total, len. induction X as [| x X IH].
  - simpl. ring.
  - change (length (x :: X)) with (S (length X)). rewrite S_INR.
    simpl. rewrite IH. ring.
Qed.

Lemma mean_map_shift (c : R) (X : list R) :
  X <> [] -> mean (map (fun x => x + c) X) = mean X + c.
Proof.
  intro HX. unfold mean. rewrite total_map_shift.
  unfold len at 2. rewrite length_map. fold (len X).
  pose proof (len_pos X HX). field. lra.
Qed.

(** The deviations of an array do not change when it is shifted. *)
Lemma centered_map_shift (c : R) (X : list R) :
  centered (map (fun x => x + c) X) = centered X.
Proof.
  destruct X as [| x0 X]; [reflexivity |].
  unfold centered. rewrite mean_map_shift by discriminate.
  rewrite map_map. apply map_ext. intro x. ring.
Qed.

Lemma np_cov01_shift_r (c : R) (X Y : list R) :
  np_cov01 X (map (fun y => y + c) Y) = np_cov01 X Y.
Proof.
  unfold np_cov01. rewrite centered_map_shift, length_map. reflexivity.
Qed.

Lemma map2_map_r {A B B' C : Type} (f : A -> B' -> C) (g : B -> B')
  (xs : list A) (ys : list B) :
  map2 f xs (map g ys) = map2 (fun x y => f x (g y)) xs ys.
Proof.
  revert ys. induction xs as [| x xs IH]; intros [| y ys]; simpl;
    try reflexivity.
  rewrite IH. reflexivity.
Qed.

Lemma map2_map_l {A A' B C : Type} (f : A' -> B -> C) (g : A -> A')
  (xs : list A) (ys : list B) :
  map2 f (map g xs) ys = map2 (fun x y => f (g x) y) xs ys.
Proof.
  revert ys. induction xs as [| x xs IH]; intros [| y ys]; simpl;
    try reflexivity.
  rewrite IH. reflexivity.
Qed.

Lemma map2_ext {A B C : Type} (f g : A -> B -> C)
  (xs : list A) (ys : list B) :
  (forall x y, f x y = g x y) -> map2 f xs ys = map2 g xs ys.
Proof.
  intro H. revert ys. induction xs as [| x xs IH]; intros [| y ys]; simpl;
    try reflexivity.
  rewrite H, IH. reflexivity.
Qed.

Lemma map_map2 {A B C D : Type} (h : C -> D) (f : A -> B -> C)
  (xs : list A) (ys : list B) :
  map h (map2 f xs ys) = map2 (fun x y => h (f x y)) xs ys.
Proof.
  revert ys. induction xs as [| x xs IH]; intros [| y ys]; simpl;
    try reflexivity.
  rewrite IH. reflexivity.
Qed.

Lemma np_sub_shift (y c : R) (t : npfloat) :
  np_sub (Fin (y + c)) t = np_add (np_sub (Fin y) t) (Fin c).
Proof.
  destruct t as [b | | |]; cbn; try reflexivity. f_equal. ring.
Qed.

(** The sum of squared deviations of the adjusted outcome. *)
Lemma dot_self_adjust (b theta m : R) (X Y : list R) :
  length Y = length X ->
  dot (map (fun v => v - b) (map2 (fun y x => y - theta * (x - m)) Y X))
      (map (fun v => v - b) (map2 (fun y x => y - theta * (x - m)) Y X))
  = dot (map (fun y => y - b) Y) (map (fun y => y - b) Y)
    - 2 * theta * dot (map (fun x => x - m) X) (map (fun y => y - b) Y)
    + theta * theta * dot (map (fun x => x - m) X) (map (fun x => x - m) X).
Proof.
  revert Y. induction X as [| x X IH]; intros [| y Y] H; try discriminate.
  - simpl. ring.
  - simpl. rewrite IH by (simpl in H; lia). ring.
Qed.

Lemma dot_centered_adjusted_self (theta : R) (Y X : list R) :
  length Y = length X -> X <> [] ->
  dot (centered (adjusted theta Y X)) (centered (adjusted theta Y X))
  = dot (centered Y) (centered Y)
    - 2 * theta * dot (centered X) (centered Y)
    + theta * theta * dot (centered X) (centered X).
Proof.
  intros Hlen HX. unfold centered at 1 2.
  rewrite Cuped.mean_adjusted by assumption.
  unfold adjusted, centered. apply dot_self_adjust. exact Hlen.
Qed.

Lemma adjusted_length (theta : R) (Y X : list R) :
  length Y = length X -> length (adjusted theta Y X) = length Y.
Proof. intro H. unfold adjusted. apply Cuped.map2_length. exact H. Qed.

Lemma map2_const {A B C : Type} (c : C) (xs : list A) (ys : list B) :
  length xs = length ys ->
  map2 (fun _ _ => c) xs ys = repeat c (length xs).
Proof.
  revert ys. induction xs as [| x xs IH]; intros [| y ys] H;
    try discriminate.
  - reflexivity.
  - simpl. rewrite IH by (simpl in H; lia). reflexivity.
Qed.

Lemma dot_zero_l (n : nat) (z : R) (ys : list R) :
  z = 0 -> dot (repeat z n) ys = 0.
Proof.
  intros ->. revert ys. induction n as [| n IH]; intros [| y ys]; simpl;
    try reflexivity.
  rewrite IH. ring.
Qed.

Lemma centered_repeat (c : R) (n : nat) :
  centered (repeat c n) = repeat (c - mean (repeat c n)) n.
Proof.
  unfold centered.
  exact (map_repeat c n (fun x => x - mean (repeat c n))).
Qed.

(** Both moments of a constant covariate vanish, and their quotient is
    NaN. *)
Lemma cuped_theta_constant (c : R) (Y : list R) :
  Y <> [] -> cuped_theta (repeat c (length Y)) Y = Return NaN.
Proof.
  intro HY.
  assert (Hn : (0 < length Y)%nat) by (destruct Y; [contradiction | simpl; lia]).
  unfold cuped_theta, np_cov01, np_var.
  rewrite repeat_length, Nat.eqb_refl. cbn [bind].
  rewrite centered_repeat.
  rewrite !dot_zero_l by (rewrite Intervals.mean_repeat by exact Hn; ring).
  rewrite Nat.sub_0_r.
  assert (Hv : np_div (Fin 0) (Fin (INR (length Y))) = Fin 0).
  { rewrite np_div_nonzero by (apply not_0_INR; lia).
    f_equal. unfold Rdiv. ring. }
  rewrite Hv.
  destruct (np_div (Fin 1) (Fin (INR (length Y - 1)))) as [b | | |];
    cbn [np_mul].
  - replace (0 * b) with 0 by ring. rewrite np_div_zero, signed_inf_zero.
    reflexivity.
  - rewrite signed_inf_zero. reflexivity.
  - rewrite Ropp_0, signed_inf_zero. reflexivity.
  - reflexivity.
Qed.

End CupedMore.

(** ** CUPAC and the delta method *)

Module CupacDelta.

Import NumPyFacts HypothesisTesting Reference CupedMore.

Lemma zip_with_map2 {A B C : Type} (f : A -> B -> C)
  (xs : list A) (ys : list B) :
  zip_with f xs ys = map2 f xs ys.
Proof. reflexivity. Qed.

(** On arrays of numbers of the same length and a finite coefficient the
    CUPAC cell is the adjustment over the reals. *)
Lemma cupacAdjust_fin (theta : R) (ys covariate : list R) :
  length covariate = length ys -> covariate <> [] ->
  cupacAdjust (map Fin ys) covariate (Fin theta)
  = Return (map Fin (adjusted theta ys covariate)).
Proof.
  intros Hlen HC. unfold cupacAdjust, broadcast2.
  rewrite !length_map, Hlen, Nat.eqb_refl. f_equal.
  rewrite zip_with_map2, map2_map_l, map2_map_r.
  rewrite np_mean_nonempty by exact HC.
  unfold adjusted. rewrite map_map2. apply map2_ext.
  intros y c. reflexivity.
Qed.

Lemma total_map2_plus (X C : list R) :
  length X = length C ->
  total (map2 Rplus X C) = total X + total C.
Proof.
  unfold total. revert C.
  induction X as [| x X IH]; intros [| c C] H; try discriminate.
  - simpl. ring.
  - simpl. rewrite IH by (simpl in H; lia). ring.
Qed.

Lemma mean_map2_plus (X C : list R) :
  length X = length C -> X <> [] ->
  mean (map2 Rplus X C) = mean X + mean C.
Proof.
  intros Hlen HX. unfold mean, len.
  rewrite total_map2_plus, Cuped.map2_length, <- Hlen by exact Hlen.
  pose proof (len_pos X HX) as Hn. unfold len in Hn. field. lra.
Qed.

(** Two adjustments with one coefficient are one adjustment by the sum of
    the covariates. *)
Lemma adjusted_twice (theta : R) (Y X C : list R) :
  length X = length Y -> length C = length Y -> X <> [] ->
  adjusted theta (adjusted theta Y X) C
  = adjusted theta Y (map2 Rplus X C).
Proof.
  intros HX HC HXne. unfold adjusted.
  rewrite mean_map2_plus by (try assumption; congruence).
  generalize (mean X) as mX. generalize (mean C) as mC. intros mC mX.
  clear HXne. revert Y C HX HC.
  induction X as [| x X IH]; intros [| y Y] [| c C] HX HC;
    try discriminate; [reflexivity |].
  simpl. rewrite IH by (simpl in *; lia). f_equal. ring.
Qed.

Lemma np_log_pos (x : R) : 0 < x -> np_log x = Fin (ln x).
Proof.
  intro H. unfold np_log. destruct (Rlt_dec 0 x); [reflexivity | contradiction].
Qed.

Lemma np_log_nonpos (x : R) : x <= 0 -> np_log x = NInf \/ np_log x = NaN.
Proof.
  intro H. unfold np_log. destruct (Rlt_dec 0 x); [lra |].
  destruct (Req_dec_T x 0); [left | right]; reflexivity.
Qed.

Lemma map_np_log_pos (xs : list R) :
  Forall (fun x => 0 < x) xs -> map np_log xs = map Fin (map ln xs).
Proof.
  induction 1 as [| x xs Hx _ IH]; [reflexivity |].
  simpl. rewrite np_log_pos, IH by exact Hx. reflexivity.
Qed.

Lemma np_sum_fin (xs : list R) : np_sum (map Fin xs) = Fin (total xs).
Proof.
  unfold np_sum, total. induction xs as [| x xs IH]; [reflexivity |].
  simpl. rewrite IH. reflexivity.
Qed.

Lemma total_squares (m : R) (xs : list R) :
  total (map (fun x => (x + - m) * (x + - m)) xs)
  = dot (map (fun x => x - m) xs) (map (fun x => x - m) xs).
Proof.
  unfold total. induction xs as [| x xs IH]; [reflexivity |].
  simpl. rewrite IH. ring.
Qed.

(** On an array of numbers [np.var] is the sum of squared deviations over
    the count. *)
Lemma np_var_f_fin (xs : list R) (ddof : nat) :
  np_var_f (map Fin xs) ddof = np_var xs ddof.
Proof.
  unfold np_var_f, np_var. cbv zeta. rewrite length_map, np_sum_fin.
  destruct xs as [| x0 xs]; [reflexivity |].
  rewrite np_div_nonzero by (apply not_0_INR; discriminate).
  rewrite !map_map. cbn [np_sub np_neg np_add np_square np_mul].
  rewrite <- (map_map (fun x => (x + - (total (x0 :: xs) / INR (length (x0 :: xs))))
                               * (x + - (total (x0 :: xs) / INR (length (x0 :: xs)))))
                      Fin).
  rewrite np_sum_fin, total_squares. reflexivity.
Qed.

Lemma np_sum_nan (l : list npfloat) : In NaN l -> np_sum l = NaN.
Proof.
  unfold np_sum. induction l as [| v l IH]; [contradiction |].
  intros [-> | H]; simpl.
  - destruct (fold_right np_add (Fin 0) l); reflexivity.
  - rewrite IH by exact H. apply ABTestMore.np_add_nan_r.
Qed.

Lemma np_sum_ninf (l : list npfloat) :
  In NInf l -> np_sum l = NInf \/ np_sum l = NaN.
Proof.
  unfold np_sum. induction l as [| v l IH]; [contradiction |].
  intros [-> | H]; simpl.
  - destruct (fold_right np_add (Fin 0) l); auto.
  - destruct (IH H) as [E | E]; rewrite E.
    + destruct v; auto.
    + right. apply ABTestMore.np_add_nan_r.
Qed.

(** An array with an entry that is NaN or minus infinity has a NaN
    variance. *)
Lemma np_var_f_bad (l : list npfloat) (ddof : nat) :
  In NaN l \/ In NInf l -> np_var_f l ddof = NaN.
Proof.
  intros Hbad. unfold np_var_f. cbv zeta.
  set (m := np_div (np_sum l) (Fin (INR (length l)))).
  assert (Hdev : In NaN (map (fun v => np_sub v m) l)).
  { assert (Hsum : np_sum l = NaN \/ (np_sum l = NInf /\ In NInf l)).
    { destruct Hbad as [H | H].
      - left. apply np_sum_nan. exact H.
      - destruct (np_sum_ninf l H) as [E | E]; auto. }
    destruct Hsum as [E | [E Hin]].
    - assert (Hm : m = NaN) by (unfold m; rewrite E; reflexivity).
      destruct l as [| v l]; [destruct Hbad; contradiction |].
      left. rewrite Hm. destruct v; reflexivity.
    - assert (Hm : m = NInf).
      { unfold m. rewrite E. cbn.
        destruct (Rlt_dec (INR (length l)) 0) as [H | _]; [| reflexivity].
        pose proof (pos_INR (length l)). lra. }
      apply in_map_iff. exists NInf. split; [| exact Hin].
      rewrite Hm. reflexivity. }
  assert (Hsq : In NaN (map np_square (map (fun v => np_sub v m) l))).
  { apply in_map_iff. exists NaN. split; [reflexivity | exact Hdev]. }
  rewrite (np_sum_nan _ Hsq). reflexivity.
Qed.

Lemma positive_or_not (xs : list R) :
  Forall (fun x => 0 < x) xs \/ exists x, In x xs /\ x <= 0.
Proof.
  induction xs as [| x xs IH]; [left; constructor |].
  destruct (Rlt_dec 0 x) as [Hx | Hx].
  - destruct IH as [IH | [y [Hy Hy0]]].
    + left. constructor; assumption.
    + right. exists y. split; [right; exact Hy | exact Hy0].
  - right. exists x. split; [left; reflexivity | lra].
Qed.

Lemma deltaMethodVariance_pos (xs : list R) :
  xs <> [] -> Forall (fun x => 0 < x) xs ->
  deltaMethodVariance xs = Fin (var_pop (map ln xs) / len xs).
Proof.
  intros Hne Hpos. unfold deltaMethodVariance. cbv zeta.
  rewrite map_np_log_pos by exact Hpos.
  rewrite np_var_f_fin.
  assert (Hne' : map ln xs <> []) by (destruct xs; [contradiction | discriminate]).
  rewrite Cuped.np_var0_fin by exact Hne'.
  rewrite np_div_nonzero; [reflexivity |].
  pose proof (len_pos xs Hne). lra.
Qed.

Lemma deltaMethodVariance_nan (xs : list R) :
  xs = [] \/ (exists x, In x xs /\ x <= 0) ->
  deltaMethodVariance xs = NaN.
Proof.
  intros [-> | [x [Hin Hx]]]; unfold deltaMethodVariance; cbv zeta.
  - change (np_div (np_div (Fin 0) (Fin 0)) (Fin 0) = NaN).
    rewrite np_div_zero, signed_inf_zero. reflexivity.
  - rewrite np_var_f_bad; [reflexivity |].
    destruct (np_log_nonpos x Hx) as [E | E]; [right | left];
      rewrite <- E; apply in_map; exact Hin.
Qed.

End CupacDelta.

(** ** More on the confidence intervals *)

Module IntervalsMore.

Import Normal NormalFacts NumPyFacts HypothesisTesting ConfidenceIntervals.
Import Reference.

Lemma z_975_pos : 0 < norm_ppf (975 / 1000).
Proof. destruct norm_ppf_0_975 as [_ [L _]]. lra. Qed.

Lemma marginOfError_fin (n : Z) :
  (0 < n)%Z -> marginOfError n = Fin (margin n) /\ 0 < margin n.
Proof.
  intro Hn. assert (Hn' : 0 < IZR n) by (apply IZR_lt in Hn; exact Hn).
  assert (Hs : 0 < sqrt (IZR n)) by (apply sqrt_lt_R0; exact Hn').
  unfold marginOfError, margin. split.
  - rewrite np_norm_ppf_inside by lra.
    rewrite np_sqrt_nonneg by lra.
    rewrite np_div_nonzero by lra. reflexivity.
  - apply Rmult_lt_0_compat; [apply z_975_pos |].
    apply Rdiv_lt_0_compat; lra.
Qed.

Lemma margin_decreasing (n1 n2 : Z) :
  (0 < n1 < n2)%Z -> margin n2 < margin n1.
Proof.
  intros [H1 H12].
  assert (H1' : 0 < IZR n1) by (apply IZR_lt in H1; exact H1).
  assert (H12' : IZR n1 < IZR n2) by (apply IZR_lt; exact H12).
  assert (Hs1 : 0 < sqrt (IZR n1)) by (apply sqrt_lt_R0; exact H1').
  assert (Hs : sqrt (IZR n1) < sqrt (IZR n2)) by (apply sqrt_lt_1; lra).
  unfold margin. apply Rmult_lt_compat_l; [apply z_975_pos |].
  unfold Rdiv. apply Rmult_lt_compat_l; [lra |].
  apply Rinv_lt_contravar; [| exact Hs].
  apply Rmult_lt_0_compat; lra.
Qed.

Lemma moe_values_fin (sizes : list Z) :
  Forall (fun n => (0 < n)%Z) sizes ->
  moe_values sizes = map Fin (map margin sizes).
Proof.
  induction 1 as [| n sizes Hn _ IH]; [reflexivity |].
  unfold moe_values in *. simpl. rewrite IH.
  destruct (marginOfError_fin n Hn) as [E _]. rewrite E. reflexivity.
Qed.

Lemma margins_sorted (sizes : list Z) :
  Forall (fun n => (0 < n)%Z) sizes -> StronglySorted Z.lt sizes ->
  StronglySorted (fun a b => b < a) (map margin sizes).
Proof.
  intros Hpos Hs. induction Hs as [| n sizes Hs IH Hn]; [constructor |].
  inversion Hpos as [| ? ? Hn0 Hpos']; subst.
  simpl. constructor; [apply IH; exact Hpos' |].
  apply Forall_forall. intros m Hm. apply in_map_iff in Hm.
  destruct Hm as [n' [<- Hin]].
  rewrite Forall_forall in Hn. apply margin_decreasing.
  split; [exact Hn0 | apply Hn; exact Hin].
Qed.

(** The sizes [np.arange(10, 300, 10)]. *)
Lemma sample_sizes_list :
  sample_sizes
  = [10; 20; 30; 40; 50; 60; 70; 80; 90; 100; 110; 120; 130; 140; 150; 160;
     170; 180; 190; 200; 210; 220; 230; 240; 250; 260; 270; 280; 290]%Z.
Proof. reflexivity. Qed.

Lemma sample_sizes_positive : Forall (fun n => (0 < n)%Z) sample_sizes.
Proof. rewrite sample_sizes_list. repeat constructor. Qed.

Lemma sample_sizes_sorted : StronglySorted Z.lt sample_sizes.
Proof.
  apply Sorted_StronglySorted; [exact Z.lt_trans |].
  rewrite sample_sizes_list. repeat constructor.
Qed.

Lemma np_add_nan_l (x : npfloat) : np_add NaN x = NaN.
Proof. destruct x; reflexivity. Qed.

Lemma np_sub_nan_l (x : npfloat) : np_sub NaN x = NaN.
Proof. destruct x; reflexivity. Qed.

Lemma np_sub_nan_r (x : npfloat) : np_sub x NaN = NaN.
Proof. destruct x; reflexivity. Qed.

Lemma np_mul_nan_l (x : npfloat) : np_mul NaN x = NaN.
Proof. destruct x; reflexivity. Qed.

Lemma np_mean_empty : np_mean [] = NaN.
Proof.
  unfold np_mean. change (np_div (Fin 0) (Fin 0) = NaN).
  rewrite np_div_zero. apply signed_inf_zero.
Qed.

Lemma np_mean_shift_all (c : R) (data : list R) :
  np_mean (map (fun x => x + c) data) = np_add (np_mean data) (Fin c).
Proof.
  destruct data as [| x0 data].
  - simpl map. rewrite np_mean_empty. reflexivity.
  - rewrite !np_mean_nonempty by discriminate.
    rewrite CupedMore.mean_map_shift by discriminate. reflexivity.
Qed.

Lemma np_sub_add_shift (m moe : npfloat) (c : R) :
  np_sub (np_add m (Fin c)) moe = np_add (np_sub m moe) (Fin c).
Proof.
  destruct m as [a | | |], moe as [b | | |]; cbn; try reflexivity.
  f_equal. ring.
Qed.

Lemma np_add_add_shift (m moe : npfloat) (c : R) :
  np_add (np_add m (Fin c)) moe = np_add (np_add m moe) (Fin c).
Proof.
  destruct m as [a | | |], moe as [b | | |]; cbn; try reflexivity.
  f_equal. ring.
Qed.

Lemma np_sub_antisym (a b : npfloat) : np_sub a b = np_neg (np_sub b a).
Proof.
  destruct a as [x | | |], b as [y | | |]; cbn; try reflexivity.
  f_equal. ring.
Qed.

Lemma np_sub_neg_l (x y : npfloat) :
  np_sub (np_neg x) y = np_neg (np_add x y).
Proof.
  destruct x as [a | | |], y as [b | | |]; cbn; try reflexivity.
  f_equal. ring.
Qed.

Lemma np_add_neg_l (x y : npfloat) :
  np_add (np_neg x) y = np_neg (np_sub x y).
Proof.
  destruct x as [a | | |], y as [b | | |]; cbn; try reflexivity.
  f_equal. ring.
Qed.

(** The variance with [ddof = 1] of fewer than two entries is NaN. *)
Lemma np_var1_short (xs : list R) :
  (length xs <= 1)%nat -> np_var xs 1 = NaN.
Proof.
  intro H. unfold np_var.
  destruct xs as [| x [| y xs]]; [| | simpl in H; lia].
  - change (np_div (Fin 0) (Fin 0) = NaN).
    rewrite np_div_zero. apply signed_inf_zero.
  - change (INR (length [x] - 1)) with 0.
    rewrite np_div_zero.
    replace (dot (centered [x]) (centered [x])) with 0.
    + apply signed_inf_zero.
    + unfold centered, mean, total, len. simpl. field.
Qed.

Lemma np_t_ppf_pos (t_ppf : R -> R -> R) (q df : R) :
  0 < df -> np_t_ppf t_ppf q df = Fin (t_ppf q df).
Proof.
  intro H. unfold np_t_ppf.
  destruct (Rlt_dec 0 df); [reflexivity | contradiction].
Qed.

Lemma np_t_ppf_nonpos (t_ppf : R -> R -> R) (q df : R) :
  df <= 0 -> np_t_ppf t_ppf q df = NaN.
Proof.
  intro H. unfold np_t_ppf. destruct (Rlt_dec 0 df); [lra | reflexivity].
Qed.

(** On a sample of at least two entries every step of the unknown-variance
    cell is finite. *)
Lemma meanIntervalUnknownVariance_fin
  (t_ppf : R -> R -> R) (data : list R) :
  (2 <= length data)%nat ->
  let half :=
    t_ppf (975 / 1000) (len data - 1)
    * (sqrt (var_sample data) / sqrt (len data)) in
  meanIntervalUnknownVariance t_ppf data
  = (Fin (mean data + - half), Fin (mean data + half)).
Proof.
  intro Hn. cbv zeta. unfold meanIntervalUnknownVariance.
  assert (Hne : data <> []) by (apply Cuped.nonempty_of_length; exact Hn).
  destruct (Intervals.len_minus_1 data Hn) as [_ Hdf].
  pose proof (Intervals.sqrt_len_pos data Hne) as Hs.
  pose proof (len_pos data Hne) as Hl.
  rewrite np_mean_nonempty by exact Hne.
  rewrite Intervals.np_var1_fin by exact Hn.
  rewrite np_sqrt_nonneg by (apply Intervals.var_sample_nonneg; exact Hn).
  rewrite np_t_ppf_pos by exact Hdf.
  rewrite np_sqrt_nonneg by lra.
  rewrite np_div_nonzero by lra.
  reflexivity.
Qed.

End IntervalsMore.

(** ** The statements checked *)

Import Normal NormalFacts NumPyFacts HypothesisTesting ConfidenceIntervals.
Import Reference.

(** C1: with 500 conversions out of 10000 in group A and 600 out of 10000 in
    group B, the A/B test computes the two rates, the two standard errors
    [sqrt (p (1 - p) / n)], the statistic
    [z = (pB - pA) / sqrt (SE_A^2 + SE_B^2)] and the two-tailed p-value
    [2 (1 - Phi |z|)]; [z] rounds to 3.10, the p-value to 0.0019, and the
    decision at [alpha = 0.05] is to reject the null hypothesis. *)
Theorem C1_two_proportion_scenario :
  exists r : ab_test,
    twoProportionZTest 500 10000 600 10000 (5 / 100) = Return r
    /\ p_A r = 500 / 10000 /\ p_B r = 600 / 10000
    /\ (exists sA sB z p : R,
          se_A r = Fin sA /\ se_B r = Fin sB
          /\ z_score r = Fin z /\ p_value r = Fin p
          /\ sA = sqrt (p_A r * (1 - p_A r) / 10000)
          /\ sB = sqrt (p_B r * (1 - p_B r) / 10000)
          /\ z = (p_B r - p_A r) / sqrt (sA ^ 2 + sB ^ 2)
          /\ p = 2 * (1 - norm_cdf (Rabs z))
          /\ 3095 / 1000 <= z < 3105 / 1000
          /\ 185 / 100000 <= p < 195 / 100000)
    /\ conclusion r = REJECT_NULL.
Proof.
  eexists. split; [apply ABTest.twoProportionZTest_scenario |].
  cbn [p_A p_B se_A se_B z_score p_value conclusion].
  split; [reflexivity |]. split; [reflexivity |]. split; [| reflexivity].
  exists (sqrt (500 / 10000 * (1 - 500 / 10000) / 10000)),
         (sqrt (600 / 10000 * (1 - 600 / 10000) / 10000)),
         scenario_z, scenario_p.
  pose proof ABTest.scenario_z_bounds. pose proof ABTest.scenario_p_bounds.
  repeat split; try reflexivity; try lra.
  unfold scenario_z, scenario_se_diff. simpl pow.
  rewrite !Rmult_1_r. reflexivity.
Qed.

(** C4: in every run of the test with [alpha] between 0 and 1, the decision
    is to reject the null hypothesis exactly when the p-value is a number
    strictly below [alpha]; a p-value equal to [alpha] fails to reject. *)
Theorem C4_decision_rule
  (conv_A n_A conv_B n_B : Z) (alpha : R) (r : ab_test) :
  0 < alpha < 1 ->
  twoProportionZTest conv_A n_A conv_B n_B alpha = Return r ->
  (conclusion r = REJECT_NULL <-> exists p, p_value r = Fin p /\ p < alpha)
  /\ (conclusion r = FAIL_TO_REJECT
      <-> ~ (exists p, p_value r = Fin p /\ p < alpha))
  /\ (p_value r = Fin alpha -> conclusion r = FAIL_TO_REJECT).
Proof.
  intros _ Hr.
  destruct (Z.eq_dec n_A 0) as [HA | HA].
  { rewrite ABTest.twoProportionZTest_raises in Hr by (left; exact HA).
    discriminate. }
  destruct (Z.eq_dec n_B 0) as [HB | HB].
  { rewrite ABTest.twoProportionZTest_raises in Hr by (right; exact HB).
    discriminate. }
  rewrite ABTest.twoProportionZTest_returns in Hr by assumption.
  cbv zeta in Hr. injection Hr as <-.
  cbn [p_value conclusion].
  match goal with
  | |- context [conclude ?p alpha] => set (pv := p)
  end.
  assert (Hdec : conclude pv alpha = REJECT_NULL
                 <-> exists p, pv = Fin p /\ p < alpha).
  { apply ABTest.conclude_rule. apply ABTest.p_value_shape. }
  split; [exact Hdec |]. split.
  - split.
    + intros Hf Hex. apply Hdec in Hex. congruence.
    + intro Hn. unfold conclude in *.
      destruct (np_ltb pv (Fin alpha)); [| reflexivity].
      exfalso. apply Hn, Hdec. reflexivity.
  - intro E. rewrite E. unfold conclude.
    destruct (np_ltb (Fin alpha) (Fin alpha)) eqn:Hlt; [| reflexivity].
    apply np_ltb_fin in Hlt. lra.
Qed.

Lemma C4_decision_rule_witness :
  exists r : ab_test,
    twoProportionZTest 500 10000 600 10000 (5 / 100) = Return r
    /\ (conclusion r = REJECT_NULL
        <-> exists p, p_value r = Fin p /\ p < 5 / 100).
Proof.
  eexists. split; [apply ABTest.twoProportionZTest_scenario |].
  apply (C4_decision_rule 500 10000 600 10000 (5 / 100)).
  - lra.
  - apply ABTest.twoProportionZTest_scenario.
Defined.

(** C9: the test divides by [sqrt (SE_A^2 + SE_B^2)] without a guard: when
    each group has either no conversion or only conversions, both standard
    errors are zero, the divisor is zero and the statistic is not a number
    of the real line (NaN when the rates agree, an infinity otherwise). *)
Theorem C9_zero_standard_error
  (conv_A n_A conv_B n_B : Z) (alpha : R) :
  (0 < n_A)%Z -> (0 < n_B)%Z ->
  conv_A = 0%Z \/ conv_A = n_A ->
  conv_B = 0%Z \/ conv_B = n_B ->
  exists r : ab_test,
    twoProportionZTest conv_A n_A conv_B n_B alpha = Return r
    /\ se_A r = Fin 0 /\ se_B r = Fin 0 /\ se_diff r = Fin 0
    /\ z_score r = np_div (Fin (p_B r - p_A r)) (Fin 0)
    /\ (forall z : R, z_score r <> Fin z)
    /\ (p_B r = p_A r -> z_score r = NaN /\ p_value r = NaN)
    /\ (p_A r < p_B r -> z_score r = PInf /\ p_value r = Fin 0)
    /\ (p_B r < p_A r -> z_score r = NInf /\ p_value r = Fin 0).
Proof.
  intros HA HB HcA HcB.
  assert (HA' : IZR n_A <> 0) by (apply not_0_IZR; lia).
  assert (HB' : IZR n_B <> 0) by (apply not_0_IZR; lia).
  eexists. split; [apply ABTest.twoProportionZTest_returns; lia |].
  cbv zeta. cbn [p_A p_B se_A se_B se_diff z_score p_value conclusion].
  set (pA := IZR conv_A / IZR n_A). set (pB := IZR conv_B / IZR n_B).
  assert (EA : pA * (1 - pA) / IZR n_A = 0).
  { unfold pA. destruct HcA as [-> | ->]; field; exact HA'. }
  assert (EB : pB * (1 - pB) / IZR n_B = 0).
  { unfold pB. destruct HcB as [-> | ->]; field; exact HB'. }
  rewrite EA, EB.
  assert (S0 : np_sqrt (Fin 0) = Fin 0).
  { rewrite np_sqrt_nonneg by lra. rewrite sqrt_0. reflexivity. }
  rewrite S0. cbn [np_square np_mul np_add].
  replace (0 * 0 + 0 * 0) with 0 by ring. rewrite S0.
  rewrite np_div_zero.
  repeat split; try reflexivity.
  - intro z. apply signed_inf_not_fin.
  - replace (pB - pA) with 0 by lra. apply signed_inf_zero.
  - replace (pB - pA) with 0 by lra. rewrite signed_inf_zero. reflexivity.
  - apply signed_inf_pos. lra.
  - rewrite signed_inf_pos by lra. cbn. f_equal. ring.
  - apply signed_inf_neg. lra.
  - rewrite signed_inf_neg by lra. cbn. f_equal. ring.
Qed.

Lemma C9_zero_standard_error_witness :
  exists r : ab_test,
    twoProportionZTest 0 10 10 10 (5 / 100) = Return r
    /\ se_diff r = Fin 0
    /\ forall z : R, z_score r <> Fin z.
Proof.
  destruct (C9_zero_standard_error 0 10 10 10 (5 / 100))
    as [r [Hr [_ [_ [Hd [_ [Hz _]]]]]]].
  - reflexivity.
  - reflexivity.
  - left. reflexivity.
  - right. reflexivity.
  - exists r. split; [exact Hr |]. split; [exact Hd | exact Hz].
Defined.

(** C2: for [n = 5000], [alpha = 0.05], [power = 0.8] and the baseline
    proportion 0.5, the cell computes [SE = sqrt (p (1 - p) / n)] and returns
    [(z_(1 - alpha/2) + z_power) * SE * sqrt 2], which rounds to 0.0280. *)
Theorem C2_mde_scenario :
  exists z_alpha z_power se mde : R,
    minimumDetectableEffect 5000 (5 / 100) (8 / 10) = Return (Fin mde)
    /\ norm_cdf z_alpha = 1 - (5 / 100) / 2
    /\ norm_cdf z_power = 8 / 10
    /\ se = sqrt (5 / 10 * (1 - 5 / 10) / 5000)
    /\ mde = (z_alpha + z_power) * se * sqrt 2
    /\ 2795 / 100000 <= mde < 2805 / 100000.
Proof.
  exists (norm_ppf (1 - 5 / 100 / 2)), (norm_ppf (8 / 10)),
         (sqrt (5 / 10 * (1 - 5 / 10) / 5000)).
  eexists. split.
  { apply MDE.minimumDetectableEffect_returns; [lia | lra | lra]. }
  replace (1 - 5 / 100 / 2) with (975 / 1000) by lra.
  destruct norm_ppf_0_975 as [E1 [L1 U1]].
  destruct norm_ppf_0_8 as [E2 [L2 U2]].
  split; [exact E1 |]. split; [exact E2 |].
  split; [reflexivity |]. split; [reflexivity |].
  rewrite Rmult_assoc, MDE.se_5000. lra.
Qed.




(** C3 fails on the code: for the covariate [[0; 1]] and the outcome
    [[0; 1]] (covariance 1/2, covariate variance 1/4) the cell computes
    [theta = 2], the adjusted outcome [[1; 0]], and the covariance of the
    covariate with the adjusted outcome is [-1/2], not zero. *)
Theorem C3_cuped_residual_at_two_points :
  var_pop [0; 1] = 1 / 4
  /\ np_cov01 [0; 1] [0; 1] = Return (Fin (1 / 2))
  /\ cuped_theta [0; 1] [0; 1] = Return (Fin 2)
  /\ cupedAdjust [0; 1] [0; 1] = Return [Fin 1; Fin 0]
  /\ np_cov01 [0; 1] [1; 0] = Return (Fin (- (1 / 2))).
Proof.
  assert (Hm : mean [0; 1] = 1 / 2).
  { unfold mean, total, len. simpl. field. }
  assert (Hm' : mean [1; 0] = 1 / 2).
  { unfold mean, total, len. simpl. field. }
  assert (Hv : var_pop [0; 1] = 1 / 4).
  { unfold var_pop, centered, len. rewrite Hm. simpl. field. }
  assert (Hc : cov_sample [0; 1] [0; 1] = 1 / 2).
  { unfold cov_sample, centered, len. rewrite Hm. simpl. field. }
  assert (Hc' : cov_sample [0; 1] [1; 0] = - (1 / 2)).
  { unfold cov_sample, centered, len. rewrite Hm, Hm'. simpl. field. }
  split; [exact Hv |].
  split; [rewrite Cuped.np_cov01_fin, Hc by (simpl; lia); reflexivity |].
  split.
  { rewrite Cuped.cuped_theta_fin by (simpl; try lia; rewrite Hv; lra).
    rewrite Hc, Hv. do 2 f_equal. field. }
  split.
  { rewrite Cuped.cupedAdjust_fin by (simpl; try lia; rewrite Hv; lra).
    rewrite Hc, Hv. unfold adjusted. rewrite Hm. simpl.
    do 2 f_equal; [f_equal; field | f_equal; f_equal; field]. }
  rewrite Cuped.np_cov01_fin, Hc' by (simpl; lia). reflexivity.
Qed.

(** C10: for an outcome and a covariate of the same length [n >= 2] with
    positive covariate variance, the coefficient of the cell is the sample
    covariance (denominator [n - 1]) over the population variance
    (denominator [n]), that is [n / (n - 1)] times the ratio of the
    population moments, and the covariance of the covariate with the adjusted
    outcome is [- cov (X, Y) / (n - 1)]: it is zero only when the covariance
    itself is. *)
Theorem C10_cuped_theta_denominators (Y X : list R) :
  length X = length Y -> (2 <= length X)%nat -> 0 < var_pop X ->
  exists (theta : R) (Y_adj : list R),
    cuped_theta X Y = Return (Fin theta)
    /\ theta = cov_sample X Y / var_pop X
    /\ theta = len X / (len X - 1) * (cov_pop X Y / var_pop X)
    /\ cupedAdjust Y X = Return (map Fin Y_adj)
    /\ Y_adj = map2 (fun y x => y - theta * (x - mean X)) Y X
    /\ np_cov01 X Y_adj = Return (Fin (- cov_sample X Y / (len X - 1)))
    /\ cov_pop X Y_adj = - cov_pop X Y / (len X - 1)
    /\ (cov_sample X Y <> 0 -> cov_sample X Y_adj <> 0).
Proof.
  intros Hlen Hn Hv.
  assert (Hv' : var_pop X <> 0) by lra.
  assert (H1 : 1 < len X) by (unfold len; apply (lt_INR 1); lia).
  pose proof (Cuped.residual_covariance Y X Hlen Hn Hv') as Hres.
  exists (cov_sample X Y / var_pop X),
         (adjusted (cov_sample X Y / var_pop X) Y X).
  split; [apply Cuped.cuped_theta_fin; assumption |].
  split; [reflexivity |].
  split.
  { unfold cov_sample, cov_pop. field. repeat split; lra. }
  split; [apply Cuped.cupedAdjust_fin; assumption |].
  split; [reflexivity |].
  split.
  { rewrite Cuped.np_cov01_fin.
    - rewrite Hres. reflexivity.
    - unfold adjusted. rewrite Cuped.map2_length; auto using eq_sym.
    - exact Hn. }
  split.
  { unfold cov_sample, cov_pop in *.
    apply (Rmult_eq_reg_r (len X / (len X - 1))).
    - transitivity
        (dot (centered X)
             (centered
                (adjusted
                   (dot (centered X) (centered Y) / (len X - 1) / var_pop X)
                   Y X))
         / (len X - 1)); [field; lra |].
      rewrite Hres. field. lra.
    - intro E. apply Rmult_integral in E. destruct E as [E | E]; [lra |].
      assert (0 < / (len X - 1)) by (apply Rinv_0_lt_compat; lra). lra. }
  intros Hc. rewrite Hres. intro E.
  apply Hc. unfold Rdiv in E. apply Rmult_integral in E.
  destruct E as [E | E]; [lra |].
  assert (0 < / (len X - 1)) by (apply Rinv_0_lt_compat; lra). lra.
Qed.

Lemma C10_cuped_theta_denominators_witness :
  exists (theta : R) (Y_adj : list R),
    cuped_theta [0; 1; 3] [1; 2; 5] = Return (Fin theta)
    /\ theta = cov_sample [0; 1; 3] [1; 2; 5] / var_pop [0; 1; 3]
    /\ cupedAdjust [1; 2; 5] [0; 1; 3] = Return (map Fin Y_adj)
    /\ np_cov01 [0; 1; 3] Y_adj
       = Return (Fin (- cov_sample [0; 1; 3] [1; 2; 5] / (len [0; 1; 3] - 1))).
Proof.
  destruct (C10_cuped_theta_denominators [1; 2; 5] [0; 1; 3])
    as [theta [Y_adj [H1 [H2 [_ [H3 [_ [H4 _]]]]]]]].
  - reflexivity.
  - simpl. lia.
  - unfold var_pop, centered, mean, total, len. simpl. lra.
  - exists theta, Y_adj. repeat split; assumption.
Defined.




(** C7 fails as stated: the cell has neither sample sizes nor a confidence
    level to vary.  Whatever quantile function with the properties of
    Student's is supplied, it differs from the formula of the description on
    samples of two entries (at the level 0.95) and at the level 0.5 (on
    samples of a hundred entries). *)
Lemma C7_counterexample :
  ~ (forall t_ppf : R -> R -> R,
       student_like t_ppf ->
       forall sampleA sampleB : list R,
         (2 <= length sampleA)%nat -> (2 <= length sampleB)%nat ->
         twoMeanDifferenceInterval t_ppf sampleA sampleB
         = spec_twoMeanDifferenceInterval t_ppf sampleA sampleB (95 / 100))
  /\ ~ (forall t_ppf : R -> R -> R,
          student_like t_ppf ->
          forall (sampleA sampleB : list R) (confidenceLevel : R),
            length sampleA = 100%nat -> length sampleB = 100%nat ->
            0 < confidenceLevel < 1 ->
            twoMeanDifferenceInterval t_ppf sampleA sampleB
            = spec_twoMeanDifferenceInterval
                t_ppf sampleA sampleB confidenceLevel).
Proof.
  split; intro H.
  - apply (Intervals.two_means_differ_on_size _ Intervals.student_like_example).
    apply H; [apply Intervals.student_like_example | simpl; lia | simpl; lia].
  - apply (Intervals.two_means_differ_on_level
             _ Intervals.student_like_example).
    apply H; [apply Intervals.student_like_example | | | lra];
      apply Intervals.half_zeros_half_ones_length.
Qed.

(** C7, amended: for two samples of a hundred entries each, the sizes
    written in the cell, and the confidence level 0.95, the cell returns
    [(meanA - meanB) +- t * sqrt (varA / nA + varB / nB)] where [t] is the
    two-tailed Student critical value with [nA + nB - 2 = 198] degrees of
    freedom; these are not the Welch-Satterthwaite degrees of freedom, which
    differ from 198 on some such samples. *)
Theorem C7_two_mean_interval
  (t_ppf : R -> R -> R) (sample1 sample2 : list R) :
  length sample1 = 100%nat -> length sample2 = 100%nat ->
  twoMeanDifferenceInterval t_ppf sample1 sample2
  = spec_twoMeanDifferenceInterval t_ppf sample1 sample2 (95 / 100)
  /\ len sample1 + len sample2 - 2 = 198
  /\ exists sampleA sampleB : list R,
       length sampleA = 100%nat /\ length sampleB = 100%nat
       /\ welch_satterthwaite_df sampleA sampleB
          <> len sampleA + len sampleB - 2.
Proof.
  intros H1 H2.
  assert (L1 : len sample1 = 100) by (unfold len; rewrite H1; simpl; lra).
  assert (L2 : len sample2 = 100) by (unfold len; rewrite H2; simpl; lra).
  split; [| split].
  - rewrite Intervals.twoMeanDifferenceInterval_fin by lia.
    unfold spec_twoMeanDifferenceInterval. cbv zeta.
    rewrite Intervals.two_tailed_order_95, L1, L2.
    replace (100 + 100 - 2) with 198 by lra.
    f_equal; f_equal; ring.
  - rewrite L1, L2. lra.
  - exists (repeat 0 100), (half_zeros_half_ones 50).
    split; [apply repeat_length |].
    split; [apply Intervals.half_zeros_half_ones_length |].
    unfold welch_satterthwaite_df. cbv zeta.
    rewrite Intervals.var_sample_repeat by lia.
    pose proof (Intervals.var_sample_half_pos 50 ltac:(lia)) as Hv.
    assert (La : len (repeat 0 100) = 100)
      by (unfold len; rewrite repeat_length; simpl; lra).
    assert (Lb : len (half_zeros_half_ones 50) = 100).
    { unfold len. rewrite Intervals.half_zeros_half_ones_length. simpl. lra. }
    rewrite La, Lb.
    set (v := var_sample (half_zeros_half_ones 50)) in *.
    replace ((0 / 100 + v / 100) ^ 2
             / ((0 / 100) ^ 2 / (100 - 1) + (v / 100) ^ 2 / (100 - 1)))
      with 99 by (field; lra).
    lra.
Qed.

Lemma C7_two_mean_interval_witness :
  twoMeanDifferenceInterval (fun q df => (q - 1 / 2) * (1 + / df))
    (repeat 0 100) (half_zeros_half_ones 50)
  = spec_twoMeanDifferenceInterval (fun q df => (q - 1 / 2) * (1 + / df))
      (repeat 0 100) (half_zeros_half_ones 50) (95 / 100).
Proof.
  apply (C7_two_mean_interval (fun q df => (q - 1 / 2) * (1 + / df))
           (repeat 0 100) (half_zeros_half_ones 50)).
  - reflexivity.
  - reflexivity.
Defined.

(** C8: for observed and expected sequences of the same length, the
    chi-square test fails with [DivisionByZeroError] when some expected
    entry is zero, and otherwise returns the statistic
    [sum (O - E)^2 / E] over the pairs. *)
Theorem C8_chi_square (observed expected : list R) (alpha : R) :
  length observed = length expected ->
  (In 0 expected ->
   chiSquareTest observed expected alpha = Fails DivisionByZeroError)
  /\ (~ In 0 expected ->
      chiSquareTest observed expected alpha
      = Ok (total (map2 (fun o e => (o - e) ^ 2 / e) observed expected))).
Proof.
  intro Hlen. unfold chiSquareTest. rewrite Hlen, Nat.eqb_refl. split.
  - intro Hin. apply Intervals.chi_square_from_zero; assumption.
  - intro Hin. rewrite Intervals.chi_square_from_nonzero by assumption.
    f_equal. ring.
Qed.

Lemma C8_chi_square_witness :
  chiSquareTest [10; 20] [15; 0] (5 / 100) = Fails DivisionByZeroError
  /\ chiSquareTest [10; 20] [15; 15] (5 / 100)
     = Ok (total (map2 (fun o e => (o - e) ^ 2 / e) [10; 20] [15; 15])).
Proof.
  split.
  - apply (C8_chi_square [10; 20] [15; 0] (5 / 100)).
    + reflexivity.
    + simpl. right. left. reflexivity.
  - apply (C8_chi_square [10; 20] [15; 15] (5 / 100)).
    + reflexivity.
    + simpl. intros [H | [H | H]]; [lra | lra | exact H].
Defined.

(** ** Further properties of the cells *)

Import ABTestMore.

(** X1: on counts and sizes that float64 carries exactly, the A/B test
    raises [ZeroDivisionError] exactly when a group size is zero, and returns
    a record for every other input, negative sizes and counts included. *)
Theorem X1_ab_test_raises_iff_zero_size
  (conv_A n_A conv_B n_B : Z) (alpha : R) :
  float_exact conv_A && float_exact n_A
  && float_exact conv_B && float_exact n_B = true ->
  (twoProportionZTest conv_A n_A conv_B n_B alpha = Raise ZeroDivisionError
   <-> n_A = 0%Z \/ n_B = 0%Z)
  /\ ((exists r, twoProportionZTest conv_A n_A conv_B n_B alpha = Return r)
      <-> n_A <> 0%Z /\ n_B <> 0%Z).
Proof.
  intros _. split; split.
  - intro H.
    destruct (Z.eq_dec n_A 0) as [HA | HA]; [left; exact HA |].
    destruct (Z.eq_dec n_B 0) as [HB | HB]; [right; exact HB |].
    rewrite ABTest.twoProportionZTest_returns in H by assumption.
    discriminate.
  - apply ABTest.twoProportionZTest_raises.
  - intros [r Hr]. apply record_shape in Hr. tauto.
  - intros [HA HB]. eexists.
    apply ABTest.twoProportionZTest_returns; assumption.
Qed.

Lemma X1_ab_test_raises_iff_zero_size_witness :
  twoProportionZTest 500 10000 600 0 (5 / 100) = Raise ZeroDivisionError
  /\ exists r, twoProportionZTest 500 (-10000) (-600) 10000 (5 / 100)
               = Return r.
Proof.
  split.
  - destruct (X1_ab_test_raises_iff_zero_size 500 10000 600 0 (5 / 100))
      as [[_ H] _]; [reflexivity |].
    apply H. right. reflexivity.
  - destruct (X1_ab_test_raises_iff_zero_size
                500 (-10000) (-600) 10000 (5 / 100))
      as [_ [_ H]]; [reflexivity |].
    apply H. split; discriminate.
Defined.

(** X2: exchanging the two groups changes the sign of the statistic and
    nothing else: the standard error of the difference, the p-value and the
    conclusion are the same. *)
Theorem X2_ab_test_swap_groups
  (conv_A n_A conv_B n_B : Z) (alpha : R) (r : ab_test) :
  twoProportionZTest conv_A n_A conv_B n_B alpha = Return r ->
  exists r' : ab_test,
    twoProportionZTest conv_B n_B conv_A n_A alpha = Return r'
    /\ p_A r' = p_B r /\ p_B r' = p_A r
    /\ se_diff r' = se_diff r
    /\ z_score r' = np_neg (z_score r)
    /\ p_value r' = p_value r
    /\ conclusion r' = conclusion r.
Proof.
  intro Hr.
  destruct (record_shape _ _ _ _ _ _ Hr)
    as [HA [HB [EpA [EpB [EsA [EsB [Esd [Ez [Ep Ec]]]]]]]]].
  eexists. split; [apply ABTest.twoProportionZTest_returns; assumption |].
  cbv zeta. cbn [p_A p_B se_A se_B se_diff z_score p_value conclusion].
  rewrite <- EpA, <- EpB, <- EsA, <- EsB.
  rewrite (np_add_comm (np_square (se_B r))), <- Esd.
  replace (p_A r - p_B r) with (- (p_B r - p_A r)) by ring.
  rewrite np_div_opp_l, <- Ez, np_abs_neg, <- Ep, <- Ec.
  repeat split; reflexivity.
Qed.

Lemma X2_ab_test_swap_groups_witness :
  exists r' : ab_test,
    twoProportionZTest 600 10000 500 10000 (5 / 100) = Return r'
    /\ z_score r' = Fin (- scenario_z)
    /\ conclusion r' = REJECT_NULL.
Proof.
  destruct (X2_ab_test_swap_groups 500 10000 600 10000 (5 / 100) _
              ABTest.twoProportionZTest_scenario)
    as [r' [Hr' [_ [_ [_ [Hz [_ Hc]]]]]]].
  exists r'. split; [exact Hr' |]. split; [exact Hz | exact Hc].
Defined.

(** X3: on counts and sizes that float64 carries exactly, a count outside
    [0, n] in a group of positive size raises nothing: the standard error of
    that group, the statistic and the p-value are NaN and the conclusion is
    to fail to reject, whatever [alpha]. *)
Theorem X3_ab_test_count_out_of_range
  (conv_A n_A conv_B n_B : Z) (alpha : R) :
  float_exact conv_A && float_exact n_A
  && float_exact conv_B && float_exact n_B = true ->
  (0 < n_A)%Z -> (0 < n_B)%Z ->
  (conv_A < 0 \/ n_A < conv_A \/ conv_B < 0 \/ n_B < conv_B)%Z ->
  exists r : ab_test,
    twoProportionZTest conv_A n_A conv_B n_B alpha = Return r
    /\ (se_A r = NaN \/ se_B r = NaN)
    /\ se_diff r = NaN /\ z_score r = NaN /\ p_value r = NaN
    /\ conclusion r = FAIL_TO_REJECT.
Proof.
  intros _ HA HB Hout.
  assert (HA' : 0 < IZR n_A) by (apply IZR_lt in HA; exact HA).
  assert (HB' : 0 < IZR n_B) by (apply IZR_lt in HB; exact HB).
  eexists. split; [apply ABTest.twoProportionZTest_returns; lia |].
  cbv zeta. cbn [p_A p_B se_A se_B se_diff z_score p_value conclusion].
  assert (Hneg : forall c n : Z, (0 < n)%Z -> (c < 0 \/ n < c)%Z ->
            IZR c / IZR n * (1 - IZR c / IZR n) / IZR n < 0).
  { intros c n Hn Hc.
    assert (Hn' : 0 < IZR n) by (apply IZR_lt in Hn; exact Hn).
    assert (Hi : 0 < / IZR n) by (apply Rinv_0_lt_compat; exact Hn').
    assert (E : IZR c / IZR n * (1 - IZR c / IZR n) / IZR n
                = IZR c * (IZR n - IZR c) * (/ IZR n * / IZR n * / IZR n))
      by (field; lra).
    rewrite E.
    assert (Hprod : IZR c * (IZR n - IZR c) < 0).
    { destruct Hc as [Hc | Hc]; apply IZR_lt in Hc; nra. }
    assert (0 < / IZR n * / IZR n * / IZR n)
      by (repeat apply Rmult_lt_0_compat; exact Hi).
    nra. }
  assert (Hcase : (conv_A < 0 \/ n_A < conv_A)%Z
                  \/ (conv_B < 0 \/ n_B < conv_B)%Z) by lia.
  destruct Hcase as [Hc | Hc].
  - rewrite (np_sqrt_neg _ (Hneg conv_A n_A HA Hc)).
    cbn. repeat split; auto.
  - rewrite (np_sqrt_neg _ (Hneg conv_B n_B HB Hc)).
    cbn [np_square np_mul]. rewrite np_add_nan_r.
    cbn. repeat split; auto.
Qed.

Lemma X3_ab_test_count_out_of_range_witness :
  exists r : ab_test,
    twoProportionZTest 12 10 5 10 (5 / 100) = Return r
    /\ p_value r = NaN /\ conclusion r = FAIL_TO_REJECT.
Proof.
  destruct (X3_ab_test_count_out_of_range 12 10 5 10 (5 / 100))
    as [r [Hr [_ [_ [_ [Hp Hc]]]]]].
  - reflexivity.
  - reflexivity.
  - reflexivity.
  - right. left. reflexivity.
  - exists r. split; [exact Hr |]. split; [exact Hp | exact Hc].
Defined.

(** X4: at a level [alpha] from 0.001 to 0.5 (where the float p-value
    resolves the comparison; far smaller levels meet the p-value 0 that
    float64 gives from about [|z| = 8.3] on), when the statistic is a number
    [z], the test rejects exactly when [|z|] exceeds the two-tailed critical
    value of [alpha], the point [c] with [Phi c = 1 - alpha / 2]. *)
Theorem X4_ab_test_critical_value
  (conv_A n_A conv_B n_B : Z) (alpha c z : R) (r : ab_test) :
  1 / 1000 <= alpha <= 1 / 2 ->
  twoProportionZTest conv_A n_A conv_B n_B alpha = Return r ->
  z_score r = Fin z ->
  norm_cdf c = 1 - alpha / 2 ->
  (conclusion r = REJECT_NULL <-> c < Rabs z).
Proof.
  intros _ Hr Hz Hc.
  destruct (record_shape _ _ _ _ _ _ Hr) as [_ [_ [_ [_ [_ [_ [_ [_ [Ep Ec]]]]]]]]].
  rewrite Ec, Ep, Hz, p_value_fin, conclude_fin.
  split; intro H.
  - apply norm_cdf_lt_iff. lra.
  - apply norm_cdf_lt_iff in H. lra.
Qed.

Lemma X4_ab_test_critical_value_witness :
  exists r : ab_test,
    twoProportionZTest 500 10000 600 10000 (5 / 100) = Return r
    /\ (conclusion r = REJECT_NULL
        <-> norm_ppf (975 / 1000) < Rabs scenario_z).
Proof.
  eexists. split; [apply ABTest.twoProportionZTest_scenario |].
  apply (X4_ab_test_critical_value 500 10000 600 10000 (5 / 100)).
  - lra.
  - apply ABTest.twoProportionZTest_scenario.
  - reflexivity.
  - destruct norm_ppf_0_975 as [E _]. rewrite E. lra.
Defined.

(** X5: when the statistic is a number [z], the p-value is the number
    [2 (1 - Phi |z|)]; it never exceeds 1 and equals 1 exactly when
    [z = 0], in which case the test does not reject at any [alpha <= 1]. *)
Theorem X5_ab_test_p_value_at_most_one
  (conv_A n_A conv_B n_B : Z) (alpha z : R) (r : ab_test) :
  twoProportionZTest conv_A n_A conv_B n_B alpha = Return r ->
  z_score r = Fin z ->
  exists p : R,
    p_value r = Fin p /\ p = 2 * (1 - norm_cdf (Rabs z))
    /\ p <= 1 /\ (p = 1 <-> z = 0)
    /\ (z = 0 -> alpha <= 1 -> conclusion r = FAIL_TO_REJECT).
Proof.
  intros Hr Hz.
  destruct (record_shape _ _ _ _ _ _ Hr) as [_ [_ [_ [_ [_ [_ [_ [_ [Ep Ec]]]]]]]]].
  rewrite Hz, p_value_fin in Ep.
  exists (2 * (1 + - norm_cdf (Rabs z))).
  pose proof (norm_cdf_monotone 0 (Rabs z) (Rabs_pos z)) as Hm.
  rewrite norm_cdf_0 in Hm.
  assert (Hiff : 2 * (1 + - norm_cdf (Rabs z)) = 1 <-> z = 0).
  { split.
    - intro H. assert (E : norm_cdf (Rabs z) = norm_cdf 0)
        by (rewrite norm_cdf_0; lra).
      apply norm_cdf_injective in E.
      destruct (Req_dec z 0) as [Hz0 | Hz0]; [exact Hz0 |].
      apply Rabs_no_R0 in Hz0. contradiction.
    - intros ->. rewrite Rabs_R0, norm_cdf_0. lra. }
  split; [exact Ep |]. split; [ring |]. split; [lra |].
  split; [exact Hiff |].
  intros Hz0 Ha. apply Hiff in Hz0.
  destruct (conclude_cases (p_value r) alpha) as [H | H];
    rewrite Ec; [| exact H].
  rewrite Ep in H. apply conclude_fin in H. lra.
Qed.

Lemma X5_ab_test_p_value_at_most_one_witness :
  exists p : R,
    p = 2 * (1 - norm_cdf (Rabs scenario_z)) /\ p <= 1.
Proof.
  destruct (X5_ab_test_p_value_at_most_one 500 10000 600 10000 (5 / 100)
              scenario_z _ ABTest.twoProportionZTest_scenario)
    as [p [_ [Hp [Hle _]]]].
  - reflexivity.
  - exists p. split; [exact Hp | exact Hle].
Defined.



Import MDEMore.

(** X7: on a sample size that float64 carries exactly, the
    minimum-detectable-effect cell raises [ZeroDivisionError] exactly when
    the size is zero, whatever [alpha] and [power]; for a negative size it
    returns NaN. *)
Theorem X7_mde_zero_and_negative_size (n : Z) (alpha power : R) :
  float_exact n = true ->
  (minimumDetectableEffect n alpha power = Raise ZeroDivisionError
   <-> n = 0%Z)
  /\ ((n < 0)%Z -> minimumDetectableEffect n alpha power = Return NaN).
Proof.
  intros _. unfold minimumDetectableEffect. split; [split |].
  - intro H. destruct (Z.eq_dec n 0) as [E | N]; [exact E |].
    rewrite py_truediv_nonzero in H by (apply not_0_IZR; exact N).
    discriminate.
  - intros ->. rewrite py_truediv_zero. reflexivity.
  - intro Hn. assert (Hn' : IZR n < 0) by (apply IZR_lt in Hn; exact Hn).
    rewrite py_truediv_nonzero by lra. cbn [bind].
    rewrite np_sqrt_neg.
    + rewrite np_mul_nan_r. reflexivity.
    + assert (0 < / - IZR n) by (apply Rinv_0_lt_compat; lra).
      replace (5 / 10 * (1 - 5 / 10) / IZR n)
        with (- (5 / 10 * (1 - 5 / 10) * / - IZR n)) by (field; lra).
      lra.
Qed.

Lemma X7_mde_zero_and_negative_size_witness :
  minimumDetectableEffect 0 (5 / 100) (8 / 10) = Raise ZeroDivisionError
  /\ minimumDetectableEffect (-5000) (5 / 100) (8 / 10) = Return NaN.
Proof.
  split.
  - destruct (X7_mde_zero_and_negative_size 0 (5 / 100) (8 / 10))
      as [[_ H] _]; [reflexivity |].
    apply H. reflexivity.
  - destruct (X7_mde_zero_and_negative_size (-5000) (5 / 100) (8 / 10))
      as [_ H]; [reflexivity |].
    apply H. reflexivity.
Defined.



(** X9: a certain test has an infinite minimum detectable effect: with a
    positive sample size that float64 carries exactly, [alpha = 0] (and a
    power strictly between 0 and 1) or [power = 1] (and [alpha] strictly
    between 0 and 1) gives plus infinity. *)
Theorem X9_mde_infinite (n : Z) (alpha power : R) :
  float_exact n = true -> (0 < n)%Z ->
  (alpha = 0 /\ 0 < power < 1) \/ (0 < alpha < 1 /\ power = 1) ->
  minimumDetectableEffect n alpha power = Return PInf.
Proof.
  intros _ Hn Hcase. unfold minimumDetectableEffect.
  assert (Hn' : 0 < IZR n) by (apply IZR_lt in Hn; exact Hn).
  rewrite py_truediv_nonzero by lra. cbn [bind].
  pose proof (se_pos n Hn) as Hse. pose proof MDE.sqrt_2_pos as H2.
  rewrite np_sqrt_nonneg
    by (left; apply Rdiv_lt_0_compat; [lra | exact Hn']).
  rewrite (np_sqrt_nonneg 2) by lra.
  destruct Hcase as [[-> Hp] | [Ha ->]].
  - replace (1 - 0 / 2) with 1 by field.
    rewrite np_norm_ppf_one, np_norm_ppf_inside by exact Hp.
    cbn [np_add np_mul]. rewrite signed_inf_pos by exact Hse.
    cbn [np_mul]. rewrite signed_inf_pos by exact H2. reflexivity.
  - rewrite np_norm_ppf_one, np_norm_ppf_inside by lra.
    cbn [np_add np_mul]. rewrite signed_inf_pos by exact Hse.
    cbn [np_mul]. rewrite signed_inf_pos by exact H2. reflexivity.
Qed.

Lemma X9_mde_infinite_witness :
  minimumDetectableEffect 5000 0 (8 / 10) = Return PInf.
Proof.
  apply (X9_mde_infinite 5000 0 (8 / 10)).
  - reflexivity.
  - lia.
  - left. split; [reflexivity | lra].
Defined.

(** X10: a power outside [0, 1], an [alpha] above 2 or an [alpha] below
    [- 2^-52] (a negative [alpha] closer to 0 is absorbed by the float
    subtraction [1 - alpha / 2]) raises nothing: for a non-zero sample size
    that float64 carries exactly, the cell returns NaN. *)
Theorem X10_mde_invalid_level (n : Z) (alpha power : R) :
  float_exact n = true -> n <> 0%Z ->
  power < 0 \/ 1 < power \/ alpha < - / 2 ^ 52 \/ 2 < alpha ->
  minimumDetectableEffect n alpha power = Return NaN.
Proof.
  intros _ Hn Hcase. unfold minimumDetectableEffect.
  rewrite py_truediv_nonzero by (apply not_0_IZR; exact Hn). cbn [bind].
  assert (H52 : 0 < / 2 ^ 52) by (apply Rinv_0_lt_compat; lra).
  assert (Hz : np_add (np_norm_ppf (1 - alpha / 2)) (np_norm_ppf power) = NaN).
  { assert (Hc : (power < 0 \/ 1 < power) \/ (alpha < 0 \/ 2 < alpha))
      by (destruct Hcase as [H | [H | [H | H]]]; lra).
    destruct Hc as [Hc | Hc].
    - rewrite (np_norm_ppf_outside power Hc). apply ABTestMore.np_add_nan_r.
    - rewrite (np_norm_ppf_outside (1 - alpha / 2)) by lra. reflexivity. }
  rewrite Hz. cbn [np_mul].
  destruct (np_sqrt (Fin (5 / 10 * (1 - 5 / 10) / IZR n))); reflexivity.
Qed.

Lemma X10_mde_invalid_level_witness :
  minimumDetectableEffect 5000 (5 / 100) (12 / 10) = Return NaN
  /\ minimumDetectableEffect 5000 (- (5 / 100)) (8 / 10) = Return NaN.
Proof.
  split.
  - apply (X10_mde_invalid_level 5000 (5 / 100) (12 / 10)).
    + reflexivity.
    + discriminate.
    + right. left. lra.
  - apply (X10_mde_invalid_level 5000 (- (5 / 100)) (8 / 10)).
    + reflexivity.
    + discriminate.
    + right. right. left.
      assert (/ 2 ^ 52 < 5 / 100); [| lra].
      apply (Rmult_lt_reg_r (2 ^ 52)); [lra |].
      rewrite Rinv_l by lra. lra.
Defined.

Import CupedMore.

(** X11: the CUPED cell raises [ValueError] exactly when the outcome and the
    covariate differ in length; otherwise it returns an array of the length
    of the outcome. *)
Theorem X11_cuped_value_error_and_length (Y X : list R) :
  (cupedAdjust Y X = Raise ValueError <-> length X <> length Y)
  /\ (length X = length Y -> exists r, cupedAdjust Y X = Return r)
  /\ (forall r, cupedAdjust Y X = Return r -> length r = length Y).
Proof.
  unfold cupedAdjust, cuped_theta, np_cov01.
  destruct (Nat.eqb (length X) (length Y)) eqn:E.
  - apply Nat.eqb_eq in E. cbn [bind]. split; [| split].
    + split; [discriminate | intro H; contradiction].
    + intros _. eexists. reflexivity.
    + intros r Hr. injection Hr as <-.
      apply Cuped.map2_length. symmetry. exact E.
  - apply Nat.eqb_neq in E. cbn [bind]. split; [| split].
    + split; [intros _; exact E | reflexivity].
    + intro H. contradiction.
    + intros r Hr. discriminate.
Qed.

(** X12: for an outcome and a covariate of the same length [n >= 2] with
    non-zero covariate variance, the adjusted outcome is an array of numbers
    with the length and the mean of the outcome. *)
Theorem X12_cuped_keeps_mean (Y X : list R) :
  length X = length Y -> (2 <= length X)%nat -> var_pop X <> 0 ->
  exists Y_adj : list R,
    cupedAdjust Y X = Return (map Fin Y_adj)
    /\ length Y_adj = length Y
    /\ mean Y_adj = mean Y
    /\ np_mean Y_adj = np_mean Y.
Proof.
  intros Hlen Hn Hv.
  assert (HX : X <> []) by (apply Cuped.nonempty_of_length; exact Hn).
  exists (adjusted (cov_sample X Y / var_pop X) Y X).
  split; [apply Cuped.cupedAdjust_fin; assumption |].
  assert (Hl : length (adjusted (cov_sample X Y / var_pop X) Y X) = length Y)
    by (apply adjusted_length; auto using eq_sym).
  assert (Hm : mean (adjusted (cov_sample X Y / var_pop X) Y X) = mean Y)
    by (apply Cuped.mean_adjusted; auto using eq_sym).
  split; [exact Hl |]. split; [exact Hm |].
  rewrite !np_mean_nonempty, Hm; [reflexivity | |].
  - intros ->. simpl in Hlen. lia.
  - intro E. rewrite E in Hl. simpl in Hl. lia.
Qed.

Lemma X12_cuped_keeps_mean_witness :
  exists Y_adj : list R,
    cupedAdjust [1; 2; 5] [0; 1; 3] = Return (map Fin Y_adj)
    /\ mean Y_adj = mean [1; 2; 5].
Proof.
  destruct (X12_cuped_keeps_mean [1; 2; 5] [0; 1; 3])
    as [Y_adj [H1 [_ [H2 _]]]].
  - reflexivity.
  - simpl. lia.
  - unfold var_pop, centered, mean, total, len. simpl. lra.
  - exists Y_adj. split; assumption.
Defined.

(** X13: under the same conditions the variance printed after CUPED never
    exceeds the variance printed before: it is lower by
    [cov_pop (X, Y)^2 / var_pop X * n (n - 2) / (n - 1)^2]. *)
Theorem X13_cuped_variance_reduction (Y X : list R) :
  length X = length Y -> (2 <= length X)%nat -> 0 < var_pop X ->
  exists Y_adj : list R,
    cupedAdjust Y X = Return (map Fin Y_adj)
    /\ np_var Y 0 = Fin (var_pop Y)
    /\ np_var Y_adj 0 = Fin (var_pop Y_adj)
    /\ var_pop Y - var_pop Y_adj
       = cov_pop X Y ^ 2 / var_pop X
         * (len X * (len X - 2) / (len X - 1) ^ 2)
    /\ var_pop Y_adj <= var_pop Y.
Proof.
  intros Hlen Hn Hv.
  assert (Hv' : var_pop X <> 0) by lra.
  assert (HX : X <> []) by (apply Cuped.nonempty_of_length; exact Hn).
  assert (H2 : 2 <= len X) by (unfold len; apply (le_INR 2); lia).
  set (theta := cov_sample X Y / var_pop X).
  exists (adjusted theta Y X).
  assert (Hl : length (adjusted theta Y X) = length Y)
    by (apply adjusted_length; auto using eq_sym).
  assert (HY : Y <> []) by (intros ->; simpl in Hlen; lia).
  assert (HA : adjusted theta Y X <> [])
    by (intro E; rewrite E in Hl; simpl in Hl; lia).
  assert (Hlen' : len (adjusted theta Y X) = len X)
    by (unfold len; rewrite Hl, Hlen; reflexivity).
  assert (HlenY : len Y = len X) by (unfold len; rewrite Hlen; reflexivity).
  assert (Hdiff : var_pop Y - var_pop (adjusted theta Y X)
                  = cov_pop X Y ^ 2 / var_pop X
                    * (len X * (len X - 2) / (len X - 1) ^ 2)).
  { unfold var_pop at 1 2.
    rewrite dot_centered_adjusted_self by (auto using eq_sym).
    rewrite Hlen', HlenY. unfold theta, cov_sample, cov_pop.
    unfold var_pop in *.
    set (sxy := dot (centered X) (centered Y)) in *.
    set (sxx := dot (centered X) (centered X)) in *.
    set (syy := dot (centered Y) (centered Y)) in *.
    assert (Hsxx : sxx <> 0).
    { intro E. apply Hv'. rewrite E. unfold Rdiv. ring. }
    field. repeat split; lra. }
  split; [apply Cuped.cupedAdjust_fin; assumption |].
  split; [apply Cuped.np_var0_fin; exact HY |].
  split; [apply Cuped.np_var0_fin; exact HA |].
  split; [exact Hdiff |].
  assert (0 <= cov_pop X Y ^ 2 / var_pop X
               * (len X * (len X - 2) / (len X - 1) ^ 2)); [| lra].
  apply Rmult_le_pos.
  - apply Rmult_le_pos; [apply pow2_ge_0 |].
    left. apply Rinv_0_lt_compat. exact Hv.
  - apply Rmult_le_pos; [nra |].
    left. apply Rinv_0_lt_compat. apply pow_lt. lra.
Qed.

Lemma X13_cuped_variance_reduction_witness :
  exists Y_adj : list R,
    cupedAdjust [1; 2; 5] [0; 1; 3] = Return (map Fin Y_adj)
    /\ var_pop Y_adj <= var_pop [1; 2; 5].
Proof.
  destruct (X13_cuped_variance_reduction [1; 2; 5] [0; 1; 3])
    as [Y_adj [H1 [_ [_ [_ H2]]]]].
  - reflexivity.
  - simpl. lia.
  - unfold var_pop, centered, mean, total, len. simpl. lra.
  - exists Y_adj. split; assumption.
Defined.

(** X14: a covariate that is constant at an integer [k] with
    [n |k| < 2^53] (so that float64 carries its sum, and its mean is [k]
    itself) raises nothing: the coefficient is [0 / 0] and every entry of
    the adjusted outcome is NaN. *)
Theorem X14_cuped_constant_covariate (k : Z) (Y : list R) :
  (Z.of_nat (length Y) * Z.abs k < 2 ^ 53)%Z ->
  cupedAdjust Y (repeat (IZR k) (length Y)) = Return (repeat NaN (length Y)).
Proof.
  intros _. generalize (IZR k). intro c.
  destruct Y as [| y0 Y]; [reflexivity |].
  unfold cupedAdjust.
  rewrite cuped_theta_constant by discriminate. cbn [bind].
  f_equal.
  transitivity (map2 (fun (_ _ : R) => NaN) (y0 :: Y)
                  (repeat c (length (y0 :: Y)))).
  - apply map2_ext. intros y x.
    destruct (np_sub (Fin x) (np_mean (repeat c (length (y0 :: Y)))));
      reflexivity.
  - apply map2_const. rewrite repeat_length. reflexivity.
Qed.

Lemma X14_cuped_constant_covariate_witness :
  cupedAdjust [1; 2; 5] [7; 7; 7] = Return [NaN; NaN; NaN].
Proof.
  apply (X14_cuped_constant_covariate 7 [1; 2; 5]).
  reflexivity.
Defined.

(** X15: the adjustment follows the level of the outcome: adding a constant
    to every entry of the outcome adds it to every adjusted entry, and
    leaves a [ValueError] as it is. *)
Theorem X15_cuped_outcome_shift (c : R) (Y X : list R) :
  cupedAdjust (map (fun y => y + c) Y) X
  = (Y_adj <- cupedAdjust Y X ;;
     Return (map (fun v => np_add v (Fin c)) Y_adj)).
Proof.
  unfold cupedAdjust, cuped_theta.
  rewrite np_cov01_shift_r.
  destruct (np_cov01 X Y) as [cv | e]; cbn [bind]; [| reflexivity].
  f_equal. rewrite map2_map_l, map_map2.
  apply map2_ext. intros y x. apply np_sub_shift.
Qed.

(** X16: when the sample covariance of the covariate and the outcome is
    zero (lengths equal and at least 2, covariate variance non-zero), the
    adjustment returns the outcome itself. *)
Theorem X16_cuped_zero_covariance (Y X : list R) :
  length X = length Y -> (2 <= length X)%nat -> var_pop X <> 0 ->
  cov_sample X Y = 0 ->
  cupedAdjust Y X = Return (map Fin Y).
Proof.
  intros Hlen Hn Hv Hc.
  rewrite Cuped.cupedAdjust_fin by assumption.
  rewrite Hc. do 2 f_equal. unfold adjusted.
  replace (0 / var_pop X) with 0 by (unfold Rdiv; ring).
  clear Hn Hv Hc. revert Y Hlen.
  generalize (mean X) as m.
  induction X as [| x X IH]; intros m [| y Y] Hlen; try discriminate.
  - reflexivity.
  - simpl. rewrite IH by (simpl in Hlen; lia). f_equal. ring.
Qed.

Lemma X16_cuped_zero_covariance_witness :
  cupedAdjust [1; 0; 1] [-1; 0; 1] = Return (map Fin [1; 0; 1]).
Proof.
  apply (X16_cuped_zero_covariance [1; 0; 1] [-1; 0; 1]).
  - reflexivity.
  - simpl. lia.
  - unfold var_pop, centered, mean, total, len. simpl. lra.
  - unfold cov_sample, centered, mean, total, len. simpl. lra.
Defined.

Import CupacDelta.

(** X17: CUPED followed by CUPAC with the coefficient of the CUPED cell (as
    the notebook does) is one adjustment by the sum of the two covariates,
    and it keeps the mean of the outcome (lengths equal and at least 2,
    covariate variance non-zero). *)
Theorem X17_cuped_then_cupac (Y X covariate : list R) :
  length X = length Y -> length covariate = length Y ->
  (2 <= length X)%nat -> var_pop X <> 0 ->
  exists (theta : R) (Y_adj : list npfloat) (Y_adj_cupac : list R),
    cuped_theta X Y = Return (Fin theta)
    /\ cupedAdjust Y X = Return Y_adj
    /\ cupacAdjust Y_adj covariate (Fin theta)
       = Return (map Fin Y_adj_cupac)
    /\ Y_adj_cupac
       = map2 (fun y s => y - theta * (s - mean (map2 Rplus X covariate)))
              Y (map2 Rplus X covariate)
    /\ mean Y_adj_cupac = mean Y.
Proof.
  intros HX HC Hn Hv.
  assert (HXne : X <> []) by (apply Cuped.nonempty_of_length; exact Hn).
  assert (HCne : covariate <> []) by (intros ->; simpl in HC; lia).
  set (theta := cov_sample X Y / var_pop X).
  assert (Hl : length (adjusted theta Y X) = length Y)
    by (apply adjusted_length; auto using eq_sym).
  exists theta, (map Fin (adjusted theta Y X)),
         (adjusted theta (adjusted theta Y X) covariate).
  split; [apply Cuped.cuped_theta_fin; assumption |].
  split; [apply Cuped.cupedAdjust_fin; assumption |].
  split; [apply cupacAdjust_fin; [congruence | exact HCne] |].
  split; [apply adjusted_twice; assumption |].
  rewrite Cuped.mean_adjusted by (try exact HCne; congruence).
  apply Cuped.mean_adjusted; auto using eq_sym.
Qed.

Lemma X17_cuped_then_cupac_witness :
  exists (theta : R) (Y_adj : list npfloat) (Y_adj_cupac : list R),
    cupedAdjust [1; 2; 5] [0; 1; 3] = Return Y_adj
    /\ cupacAdjust Y_adj [4; 2; 3] (Fin theta) = Return (map Fin Y_adj_cupac)
    /\ mean Y_adj_cupac = mean [1; 2; 5].
Proof.
  destruct (X17_cuped_then_cupac [1; 2; 5] [0; 1; 3] [4; 2; 3])
    as [theta [Y_adj [Yc [_ [H1 [H2 [_ H3]]]]]]].
  - reflexivity.
  - reflexivity.
  - simpl. lia.
  - unfold var_pop, centered, mean, total, len. simpl. lra.
  - exists theta, Y_adj, Yc. repeat split; assumption.
Defined.

(** X18: the CUPAC cell broadcasts: a covariate of a single entry has no
    deviation from its mean and leaves an adjusted outcome of numbers as it
    is, whatever its length; two arrays of different lengths, neither of
    length 1, raise [ValueError]. *)
Theorem X18_cupac_broadcasting :
  (forall (ys : list R) (c theta : R),
     cupacAdjust (map Fin ys) [c] (Fin theta) = Return (map Fin ys))
  /\ (forall (Y_adj : list npfloat) (covariate : list R) (theta : npfloat),
        length Y_adj <> length covariate ->
        length Y_adj <> 1%nat -> length covariate <> 1%nat ->
        cupacAdjust Y_adj covariate theta = Raise ValueError).
Proof.
  split.
  - intros ys c theta. unfold cupacAdjust, broadcast2.
    rewrite np_mean_nonempty by discriminate.
    assert (Hm : mean [c] = c) by (unfold mean, total, len; simpl; field).
    rewrite Hm. cbn [map np_sub np_neg np_add np_mul length].
    assert (Hent : forall y : R,
              np_sub (Fin y) (Fin (theta * (c + - c))) = Fin y)
      by (intro y; cbn; f_equal; ring).
    rewrite length_map.
    destruct ys as [| y1 [| y2 ys]].
    + reflexivity.
    + cbn [length Nat.eqb map zip_with]. rewrite Hent. reflexivity.
    + cbn [length Nat.eqb map]. f_equal.
      rewrite !Hent. f_equal. f_equal.
      rewrite map_map. apply map_ext. intro y. apply Hent.
  - intros Y_adj covariate theta Hne H1 H2.
    unfold cupacAdjust, broadcast2. rewrite length_map.
    apply Nat.eqb_neq in Hne. rewrite Hne.
    destruct Y_adj as [| v1 [| v2 Y_adj]].
    + destruct covariate as [| c1 [| c2 covariate]];
        [discriminate | contradiction H2; reflexivity | reflexivity].
    + contradiction H1. reflexivity.
    + destruct covariate as [| c1 [| c2 covariate]];
        [reflexivity | contradiction H2; reflexivity | reflexivity].
Qed.

(** X19: the delta-method cell returns a number exactly when the metric is
    non-empty with positive entries only; the number is the population
    variance of the logarithms over the count, and it is non-negative.  An
    empty metric or a single entry at or below zero gives NaN. *)
Theorem X19_delta_method_domain (original_metric : list R) :
  ((exists v : R, deltaMethodVariance original_metric = Fin v)
   <-> original_metric <> [] /\ Forall (fun x => 0 < x) original_metric)
  /\ (original_metric <> [] -> Forall (fun x => 0 < x) original_metric ->
      deltaMethodVariance original_metric
      = Fin (var_pop (map ln original_metric) / len original_metric)
      /\ 0 <= var_pop (map ln original_metric) / len original_metric)
  /\ (original_metric = [] \/ (exists x, In x original_metric /\ x <= 0) ->
      deltaMethodVariance original_metric = NaN).
Proof.
  assert (Hfin : original_metric <> [] ->
                 Forall (fun x => 0 < x) original_metric ->
                 deltaMethodVariance original_metric
                 = Fin (var_pop (map ln original_metric) / len original_metric)
                 /\ 0 <= var_pop (map ln original_metric) / len original_metric).
  { intros Hne Hpos. split; [apply deltaMethodVariance_pos; assumption |].
    pose proof (len_pos _ Hne) as Hn.
    assert (Hn' : len (map ln original_metric) = len original_metric)
      by (unfold len; rewrite length_map; reflexivity).
    unfold var_pop. rewrite Hn'.
    pose proof (Intervals.dot_self_nonneg (centered (map ln original_metric))).
    assert (0 < / len original_metric) by (apply Rinv_0_lt_compat; exact Hn).
    unfold Rdiv. nra. }
  split; [| split; [exact Hfin | apply deltaMethodVariance_nan]].
  split.
  - intros [v Hv].
    destruct original_metric as [| x0 xs].
    { rewrite deltaMethodVariance_nan in Hv by (left; reflexivity).
      discriminate. }
    split; [discriminate |].
    destruct (positive_or_not (x0 :: xs)) as [H | H]; [exact H |].
    rewrite deltaMethodVariance_nan in Hv by (right; exact H). discriminate.
  - intros [Hne Hpos]. eexists. apply Hfin; assumption.
Qed.

(** X20: the delta-method estimate does not depend on the unit of the
    metric: multiplying every entry by a positive constant leaves it
    unchanged. *)
Theorem X20_delta_method_scale_invariant (c : R) (original_metric : list R) :
  0 < c ->
  deltaMethodVariance (map (fun x => c * x) original_metric)
  = deltaMethodVariance original_metric.
Proof.
  intro Hc.
  destruct original_metric as [| x0 xs]; [reflexivity |].
  destruct (positive_or_not (x0 :: xs)) as [Hpos | [x [Hin Hx]]].
  - assert (Hpos' : Forall (fun x => 0 < x) (map (fun x => c * x) (x0 :: xs))).
    { apply Forall_forall. intros y Hy. apply in_map_iff in Hy.
      destruct Hy as [x [<- Hx]].
      rewrite Forall_forall in Hpos. apply Rmult_lt_0_compat; auto. }
    rewrite !deltaMethodVariance_pos by (try assumption; discriminate).
    assert (Hln : map ln (map (fun x => c * x) (x0 :: xs))
                  = map (fun v => v + ln c) (map ln (x0 :: xs))).
    { rewrite !map_map. apply map_ext_in. intros x Hx.
      rewrite Forall_forall in Hpos.
      rewrite ln_mult by auto. ring. }
    rewrite Hln. unfold var_pop, len.
    rewrite centered_map_shift, !length_map. reflexivity.
  - rewrite !deltaMethodVariance_nan; [reflexivity | |].
    + right. exists x. split; assumption.
    + right. exists (c * x). split; [apply in_map; exact Hin | nra].
Qed.

Lemma X20_delta_method_scale_invariant_witness :
  deltaMethodVariance (map (fun x => 100 * x) [1; 2; 4])
  = deltaMethodVariance [1; 2; 4].
Proof.
  apply (X20_delta_method_scale_invariant 100 [1; 2; 4]). lra.
Defined.

Import IntervalsMore.

(** X21: over the sample sizes [np.arange(10, 300, 10)] of the
    margin-of-error cell, the 29 plotted margins are positive numbers in
    strictly decreasing order. *)
Theorem X21_margin_curve_decreasing :
  exists ms : list R,
    moe_values sample_sizes = map Fin ms
    /\ length ms = 29%nat
    /\ Forall (fun m => 0 < m) ms
    /\ StronglySorted (fun a b => b < a) ms.
Proof.
  exists (map margin sample_sizes).
  split; [apply moe_values_fin, sample_sizes_positive |].
  split; [reflexivity |].
  split.
  - apply Forall_forall. intros m Hm. apply in_map_iff in Hm.
    destruct Hm as [n [<- Hin]].
    pose proof sample_sizes_positive as Hpos.
    rewrite Forall_forall in Hpos.
    apply (marginOfError_fin n (Hpos n Hin)).
  - apply margins_sorted;
      [apply sample_sizes_positive | apply sample_sizes_sorted].
Qed.

(** X22: the margin of error of a positive sample size is a positive
    number that strictly decreases as the size grows, and four times the
    observations halve it; a size of zero gives plus infinity and a negative
    size NaN, without an error. *)
Theorem X22_margin_of_error_in_size :
  (forall n1 n2 : Z, (0 < n1 < n2)%Z ->
     exists m1 m2 : R,
       marginOfError n1 = Fin m1 /\ marginOfError n2 = Fin m2
       /\ 0 < m2 < m1)
  /\ (forall n : Z, (0 < n)%Z ->
        exists m : R,
          marginOfError n = Fin m /\ marginOfError (4 * n) = Fin (m / 2))
  /\ marginOfError 0 = PInf
  /\ (forall n : Z, (n < 0)%Z -> marginOfError n = NaN).
Proof.
  split; [| split; [| split]].
  - intros n1 n2 Hn.
    destruct (marginOfError_fin n1 ltac:(lia)) as [E1 P1].
    destruct (marginOfError_fin n2 ltac:(lia)) as [E2 P2].
    exists (margin n1), (margin n2).
    split; [exact E1 |]. split; [exact E2 |].
    split; [exact P2 | apply margin_decreasing; exact Hn].
  - intros n Hn.
    destruct (marginOfError_fin n Hn) as [E1 _].
    destruct (marginOfError_fin (4 * n) ltac:(lia)) as [E4 _].
    exists (margin n). split; [exact E1 |]. rewrite E4. f_equal.
    unfold margin. rewrite mult_IZR.
    assert (Hn' : 0 < IZR n) by (apply IZR_lt in Hn; exact Hn).
    rewrite sqrt_mult by lra.
    replace 4 with (2 * 2) by ring. rewrite sqrt_square by lra.
    field. apply Rgt_not_eq, sqrt_lt_R0. exact Hn'.
  - unfold marginOfError.
    rewrite np_norm_ppf_inside by lra.
    rewrite np_sqrt_nonneg, sqrt_0 by lra.
    rewrite np_div_zero, signed_inf_pos by lra.
    cbn [np_mul]. apply signed_inf_pos, z_975_pos.
  - intros n Hn. unfold marginOfError.
    rewrite np_sqrt_neg by (apply IZR_lt in Hn; exact Hn).
    cbn [np_div]. apply MDEMore.np_mul_nan_r.
Qed.

(** X23: on a non-empty sample the known-variance interval is a pair of
    numbers centred at the sample mean, of width [2 z sigma / sqrt n]; its
    bounds are in order exactly when [sigma] is not negative (a negative
    [sigma] raises nothing and returns them reversed). *)
Theorem X23_known_variance_interval_shape (data : list R) (sigma : R) :
  data <> [] ->
  exists ci_lower ci_upper : R,
    meanIntervalKnownVariance data sigma = (Fin ci_lower, Fin ci_upper)
    /\ (ci_lower + ci_upper) / 2 = mean data
    /\ ci_upper - ci_lower
       = 2 * norm_ppf (975 / 1000) * sigma / sqrt (len data)
    /\ (ci_lower <= ci_upper <-> 0 <= sigma).
Proof.
  intro Hd.
  rewrite Intervals.meanIntervalKnownVariance_fin by exact Hd. cbv zeta.
  eexists. eexists. split; [reflexivity |].
  pose proof (Intervals.sqrt_len_pos data Hd) as Hs.
  pose proof z_975_pos as Hz.
  split; [field; lra |]. split; [field; lra |].
  assert (Hi : 0 < / sqrt (len data)) by (apply Rinv_0_lt_compat; exact Hs).
  assert (Hk : 0 < norm_ppf (975 / 1000) * / sqrt (len data))
    by (apply Rmult_lt_0_compat; assumption).
  unfold Rdiv. split; intro H.
  - destruct (Rle_or_lt 0 sigma) as [H0 | H0]; [exact H0 |]. nra.
  - nra.
Qed.

Lemma X23_known_variance_interval_shape_witness :
  exists ci_lower ci_upper : R,
    meanIntervalKnownVariance [48; 50] 10 = (Fin ci_lower, Fin ci_upper)
    /\ (ci_lower + ci_upper) / 2 = mean [48; 50].
Proof.
  destruct (X23_known_variance_interval_shape [48; 50] 10)
    as [lo [hi [H1 [H2 _]]]].
  - discriminate.
  - exists lo, hi. split; assumption.
Defined.

(** X24: on an empty sample the known-variance cell raises nothing: both
    bounds are NaN, whatever [sigma]. *)
Theorem X24_known_variance_interval_empty (sigma : R) :
  meanIntervalKnownVariance [] sigma = (NaN, NaN).
Proof.
  unfold meanIntervalKnownVariance. cbv zeta.
  rewrite np_mean_empty, np_sub_nan_l, np_add_nan_l. reflexivity.
Qed.

(** X25: the known-variance interval follows the level of the data: adding
    a constant to every observation adds it to both bounds. *)
Theorem X25_known_variance_interval_shift (c sigma : R) (data : list R) :
  meanIntervalKnownVariance (map (fun x => x + c) data) sigma
  = (np_add (fst (meanIntervalKnownVariance data sigma)) (Fin c),
     np_add (snd (meanIntervalKnownVariance data sigma)) (Fin c)).
Proof.
  unfold meanIntervalKnownVariance. cbv zeta. cbn [fst snd].
  rewrite np_mean_shift_all. unfold len. rewrite length_map.
  rewrite np_sub_add_shift, np_add_add_shift. reflexivity.
Qed.

(** X26: on a sample of [n >= 2] entries the unknown-variance cell returns
    [mean +- t * s / sqrt n], where [s] is the sample standard deviation
    (denominator [n - 1]) and [t] the quantile of order 0.975 of Student's
    distribution with [n - 1] degrees of freedom; a sample constant at an
    integer value gives the interval reduced to that value. *)
Theorem X26_unknown_variance_interval
  (t_ppf : R -> R -> R) (data : list R) :
  (2 <= length data)%nat ->
  exists s t ci_lower ci_upper : R,
    meanIntervalUnknownVariance t_ppf data = (Fin ci_lower, Fin ci_upper)
    /\ s = sqrt (var_sample data)
    /\ t = t_ppf (975 / 1000) (len data - 1)
    /\ ci_lower = mean data - t * s / sqrt (len data)
    /\ ci_upper = mean data + t * s / sqrt (len data)
    /\ ((exists k : Z, data = repeat (IZR k) (length data)) ->
        ci_lower = mean data /\ ci_upper = mean data).
Proof.
  intro Hn.
  rewrite meanIntervalUnknownVariance_fin by exact Hn. cbv zeta.
  assert (Hne : data <> []) by (apply Cuped.nonempty_of_length; exact Hn).
  pose proof (Intervals.sqrt_len_pos data Hne) as Hs.
  exists (sqrt (var_sample data)), (t_ppf (975 / 1000) (len data - 1)).
  eexists. eexists. split; [reflexivity |].
  split; [reflexivity |]. split; [reflexivity |].
  split; [field; lra |]. split; [field; lra |].
  intros [k Hc].
  assert (Hv : var_sample data = 0)
    by (rewrite Hc; apply Intervals.var_sample_repeat; lia).
  rewrite Hv, sqrt_0. split; field; lra.
Qed.

Lemma X26_unknown_variance_interval_witness :
  exists ci_lower ci_upper : R,
    meanIntervalUnknownVariance (fun q df => (q - 1 / 2) * (1 + / df))
      [7; 7; 7] = (Fin ci_lower, Fin ci_upper)
    /\ ci_lower = mean [7; 7; 7] /\ ci_upper = mean [7; 7; 7].
Proof.
  destruct (X26_unknown_variance_interval
              (fun q df => (q - 1 / 2) * (1 + / df)) [7; 7; 7])
    as [s [t [lo [hi [H1 [_ [_ [_ [_ H2]]]]]]]]].
  - simpl. lia.
  - exists lo, hi. split; [exact H1 |]. apply H2. exists 7%Z. reflexivity.
Defined.

(** X27: on a sample of fewer than two entries the unknown-variance cell
    raises nothing: the degrees of freedom are not positive, the quantile
    is NaN and so are both bounds. *)
Theorem X27_unknown_variance_interval_short
  (t_ppf : R -> R -> R) (data : list R) :
  (length data <= 1)%nat ->
  meanIntervalUnknownVariance t_ppf data = (NaN, NaN).
Proof.
  intro Hn. unfold meanIntervalUnknownVariance. cbv zeta.
  rewrite np_t_ppf_nonpos.
  - rewrite np_mul_nan_l, np_sub_nan_r, ABTestMore.np_add_nan_r.
    reflexivity.
  - unfold len. apply le_INR in Hn. simpl in Hn. lra.
Qed.

Lemma X27_unknown_variance_interval_short_witness :
  meanIntervalUnknownVariance (fun q df => (q - 1 / 2) * (1 + / df)) [7]
  = (NaN, NaN).
Proof.
  apply (X27_unknown_variance_interval_short
           (fun q df => (q - 1 / 2) * (1 + / df)) [7]).
  simpl. lia.
Defined.

(** X28: exchanging the two samples of the two-means cell reflects the
    interval about zero: the new lower bound is the opposite of the old
    upper bound, and conversely. *)
Theorem X28_two_mean_interval_swap
  (t_ppf : R -> R -> R) (sample1 sample2 : list R) :
  twoMeanDifferenceInterval t_ppf sample2 sample1
  = (np_neg (snd (twoMeanDifferenceInterval t_ppf sample1 sample2)),
     np_neg (fst (twoMeanDifferenceInterval t_ppf sample1 sample2))).
Proof.
  unfold twoMeanDifferenceInterval. cbv zeta. cbn [fst snd].
  rewrite (np_sub_antisym (np_mean sample2) (np_mean sample1)).
  rewrite (ABTestMore.np_add_comm (np_div (np_var sample2 1) (Fin 100))).
  rewrite np_sub_neg_l, np_add_neg_l. reflexivity.
Qed.

(** X29: when a sample of the two-means cell has fewer than two entries,
    its variance with [ddof = 1] is NaN and so are both bounds; nothing is
    raised. *)
Theorem X29_two_mean_interval_short
  (t_ppf : R -> R -> R) (sample1 sample2 : list R) :
  (length sample1 <= 1)%nat \/ (length sample2 <= 1)%nat ->
  twoMeanDifferenceInterval t_ppf sample1 sample2 = (NaN, NaN).
Proof.
  intro H. unfold twoMeanDifferenceInterval. cbv zeta.
  assert (Hse : np_sqrt (np_add (np_div (np_var sample1 1) (Fin 100))
                                (np_div (np_var sample2 1) (Fin 100)))
                = NaN).
  { destruct H as [H | H]; rewrite (np_var1_short _ H).
    - cbn [np_div]. rewrite np_add_nan_l. reflexivity.
    - cbn [np_div]. rewrite ABTestMore.np_add_nan_r. reflexivity. }
  rewrite Hse. cbn [np_mul].
  rewrite np_sub_nan_r, ABTestMore.np_add_nan_r. reflexivity.
Qed.

Lemma X29_two_mean_interval_short_witness :
  twoMeanDifferenceInterval (fun q df => (q - 1 / 2) * (1 + / df))
    [3] [1; 2; 4] = (NaN, NaN).
Proof.
  apply (X29_two_mean_interval_short
           (fun q df => (q - 1 / 2) * (1 + / df)) [3] [1; 2; 4]).
  left. simpl. lia.
Defined.
